(** * auth-profiles: the profile data model, its triggers, its row policies
      and the profile helpers, embedded and verified

    Sources embedded here:
    - [sql/2-add-functions.sql]   (functions and triggers),
    - [sql/3-enable-rls-policies.sql] (row level security policies),
    - [lib/profile-utils.ts]      (generateInitials, sanitizeProfileData,
                                   isValidAvatarUrl),
    - [components/profile/profile-edit-form.tsx] (handleSubmit).

    The file is organised as: definitions (JavaScript strings, the helper
    functions, the relational store with its policies and triggers, the
    access functions, sequences of operations, the schema catalogue and
    the setup scripts), then the lemmas and theorems about them. *)

From Stdlib Require Import ZArith NArith Ascii String.
From stdpp Require Import base tactics option list gmap strings fin_maps.

Local Open Scope Z_scope.

(** ** JavaScript strings

    A JavaScript string is a finite sequence of UTF-16 code units.  All
    operations of the helpers ([trim], [split], indexing, [join]) are
    defined on code units. *)

Module JsString.

Definition code_unit := N.
Definition jsstring := list code_unit.

(** Code units of an ASCII literal. *)
Fixpoint js (s : string) : jsstring :=
  match s with
  | EmptyString => []
  | String a r => N_of_ascii a :: js r
  end.

(** ECMAScript [WhiteSpace] and [LineTerminator] code points, the ones
    removed by [String.prototype.trim]. *)
Definition is_js_whitespace (c : code_unit) : bool :=
  ((9 <=? c) && (c <=? 13) ||
   (c =? 32) || (c =? 160) || (c =? 5760) ||
   ((8192 <=? c) && (c <=? 8202)) ||
   (c =? 8232) || (c =? 8233) || (c =? 8239) || (c =? 8287) ||
   (c =? 12288) || (c =? 65279))%N.

Fixpoint trimStart (s : jsstring) : jsstring :=
  match s with
  | [] => []
  | c :: r => if is_js_whitespace c then trimStart r else s
  end.

Definition trimEnd (s : jsstring) : jsstring :=
  reverse (trimStart (reverse s)).

Definition trim (s : jsstring) : jsstring := trimEnd (trimStart s).

(** [s.split(sep)] for a separator of one code unit. *)
Fixpoint split (sep : code_unit) (s : jsstring) : list jsstring :=
  match s with
  | [] => [[]]
  | c :: r =>
      if (c =? sep)%N then [] :: split sep r
      else match split sep r with
           | h :: t => (c :: h) :: t
           | [] => [[c]]
           end
  end.

Definition space : code_unit := 32%N.

(** [s[0]]: the first code unit as a one-unit string, [None] standing
    for [undefined]. *)
Definition index0 (s : jsstring) : option jsstring :=
  match s with
  | [] => None
  | c :: _ => Some [c]
  end.

(** [arr.join("")]: [undefined] elements are rendered as the empty
    string. *)
Definition join_empty (arr : list (option jsstring)) : jsstring :=
  concat (map (default []) arr).

(** A string is truthy iff it is not empty. *)
Definition truthy (s : jsstring) : bool :=
  match s with [] => false | _ => true end.

(** The string is empty or made of white space only. *)
Definition whitespace_only (s : jsstring) : Prop :=
  Forall (fun c => is_js_whitespace c = true) s.

(** The first code unit of each word, concatenated; an empty word
    (between two adjacent separators) has none. *)
Definition first_units (words : list jsstring) : jsstring :=
  concat (map (take 1) words).

(** ASCII case mapping, used to run the helpers on the inputs of the
    unit tests. *)
Definition ascii_upper (s : jsstring) : jsstring :=
  map (fun c => if ((97 <=? c) && (c <=? 122))%N then (c - 32)%N else c) s.

End JsString.

(** ** lib/profile-utils.ts *)

Module ProfileUtils.
Import JsString.

(** Outcome of a JavaScript call: a value or a thrown exception. *)
Inductive Completion (A : Type) : Type :=
| Normal (v : A)
| Throw (e : string).
Arguments Normal {A} v.
Arguments Throw {A} e.

Definition type_error : string := "TypeError".

(** [try { body } catch { handler }] *)
Definition try_catch {A} (body : Completion A) (handler : Completion A)
  : Completion A :=
  match body with
  | Normal v => Normal v
  | Throw _ => handler
  end.

(** The fields of a parsed [URL] object read by the helpers. *)
Record URL := { protocol : jsstring; hostname : jsstring }.

(** Built-ins of the host the helpers run on.  [toUpperCase] is
    [String.prototype.toUpperCase]; [parseURL s] is [new URL(s)], with
    [None] when the constructor throws its [TypeError]. *)
Class JsHost := {
  toUpperCase : jsstring -> jsstring;
  parseURL : jsstring -> option URL
}.

Definition new_URL `{JsHost} (s : jsstring) : Completion URL :=
  match parseURL s with
  | Some u => Normal u
  | None => Throw type_error
  end.

(** [x.toUpperCase()] where [x] may be [undefined]. *)
Definition call_toUpperCase `{JsHost} (x : option jsstring)
  : Completion jsstring :=
  match x with
  | Some s => Normal (toUpperCase s)
  | None => Throw type_error
  end.

(** [generateInitials(fullName, fallbackEmail)].  [fullName] is optional
    because the source guards it with [?.]. *)
Definition generateInitials `{JsHost}
    (fullName : option jsstring) (fallbackEmail : jsstring)
  : Completion jsstring :=
  let trimmedName := trim <$> fullName in
  match trimmedName with
  | Some t =>
      if truthy t
      then Normal (toUpperCase (join_empty (map index0 (split space t))))
      else call_toUpperCase (index0 fallbackEmail)
  | None => call_toUpperCase (index0 fallbackEmail)
  end.

(** The form data and the sanitised data: two strings. *)
Record FormData := { fd_full_name : jsstring; fd_avatar_url : jsstring }.

Definition sanitizeProfileData (data : FormData) : FormData :=
  {| fd_full_name := trim (fd_full_name data);
     fd_avatar_url := trim (fd_avatar_url data) |}.

Definition isValidAvatarUrl `{JsHost} (url : jsstring) : Completion bool :=
  if negb (truthy (trim url)) then Normal true
  else
    try_catch
      (match new_URL url with
       | Normal parsedUrl =>
           Normal
             ((bool_decide (protocol parsedUrl = js "http:")
               || bool_decide (protocol parsedUrl = js "https:"))
              && bool_decide (0 < length (hostname parsedUrl))%nat)
       | Throw e => Throw e
       end)
      (Normal false).

(** A host for running the unit tests' inputs: ASCII upper-casing and
    the outcomes of [new URL] on the strings of
    [__tests__/lib/profile-utils.test.ts]. *)
Definition test_parseURL (s : jsstring) : option URL :=
  if bool_decide (s = js "http://example.com/avatar.jpg")
  then Some {| protocol := js "http:"; hostname := js "example.com" |}
  else if bool_decide (s = js "https://example.com/avatar.jpg")
  then Some {| protocol := js "https:"; hostname := js "example.com" |}
  else if bool_decide (s = js "ftp://example.com/avatar.jpg")
  then Some {| protocol := js "ftp:"; hostname := js "example.com" |}
  else if bool_decide (s = js "file:///path/to/avatar.jpg")
  then Some {| protocol := js "file:"; hostname := [] |}
  else None.

Definition test_host : JsHost :=
  {| toUpperCase := ascii_upper; parseURL := test_parseURL |}.

End ProfileUtils.

(** ** The relational store: tables, policies, triggers

    [auth.users] is the identity table of the authentication subsystem;
    [public.profiles] is the application's table.  Statements run either
    as a PostgREST role (anon or authenticated, both subject to row level
    security, carrying the identity returned by [auth.uid()]) or as the
    owner of the table (the [security definer] trigger function). *)

Module Store.
Import JsString.

Definition uuid := string.
Definition text := jsstring.
(** [timestamp]: microseconds since the epoch, in UTC; on this
    representation [timezone('utc', now())] is [now()] itself. *)
Definition timestamp := Z.

(** *** JSON values of [raw_user_meta_data] *)

(** Numbers, arrays and objects are carried by their text form, which
    is all the [->>] operator reads of them. *)
Inductive json :=
| JNull
| JTrue
| JFalse
| JNumber (literal : text)
| JString (s : text)
| JComposite (literal : text).

Definition json_as_text (v : json) : option text :=
  match v with
  | JNull => None
  | JTrue => Some (js "true")
  | JFalse => Some (js "false")
  | JNumber l => Some l
  | JString s => Some s
  | JComposite l => Some l
  end.

(** [obj ->> key]: SQL NULL when the column is NULL, the key is absent
    or the value is JSON null. *)
Definition arrow_text (obj : option (gmap text json)) (key : text)
  : option text :=
  o ← obj; v ← o !! key; json_as_text v.

(** [coalesce(x, d)] *)
Definition coalesce (x : option text) (d : text) : text := default d x.

(** *** Rows *)

Module Auth.
Record users := {
  id : uuid;
  email : text;
  raw_user_meta_data : option (gmap text json)
}.
End Auth.

Record Profile := {
  id : uuid;
  email : text;
  full_name : option text;
  avatar_url : option text;
  created_at : timestamp;
  updated_at : timestamp
}.

Record Db := {
  auth_users : list Auth.users;
  profiles : list Profile
}.

Definition empty_db : Db := {| auth_users := []; profiles := [] |}.

Definition with_profiles (db : Db) (rows : list Profile) : Db :=
  {| auth_users := auth_users db; profiles := rows |}.

(** *** Errors and results *)

Inductive SqlError :=
| unique_violation          (* 23505 *)
| insufficient_privilege.   (* 42501: row violates row-level security *)

Inductive Result (A : Type) : Type :=
| Ok (a : A)
| Err (e : SqlError).
Arguments Ok {A} a.
Arguments Err {A} e.

Global Instance Result_ret : MRet Result := fun A a => Ok a.
Global Instance Result_bind : MBind Result := fun A B k r =>
  match r with
  | Ok a => k a
  | Err e => Err e
  end.

(** What persists after a transaction: its result, or the state it
    started from when it aborted. *)
Definition commit (db : Db) (r : Result Db) : Db :=
  match r with
  | Ok db' => db'
  | Err _ => db
  end.

(** *** Row level security (sql/3-enable-rls-policies.sql) *)

Inductive Command := ForSelect | ForInsert | ForUpdate | ForDelete.

Global Instance Command_eq_dec : EqDecision Command.
Proof. solve_decision. Defined.

(** The only policy expression of the script: [auth.uid() = id]. *)
Inductive Expr := AuthUidEqId.

Record Policy := {
  pol_name : string;
  pol_table : string;
  pol_cmd : Command;
  pol_using : option Expr;
  pol_with_check : option Expr
}.

Definition profiles_policies : list Policy :=
  [ {| pol_name := "Users can view own profile"; pol_table := "profiles";
       pol_cmd := ForSelect;
       pol_using := Some AuthUidEqId; pol_with_check := None |};
    {| pol_name := "Users can insert their own profile.";
       pol_table := "profiles"; pol_cmd := ForInsert;
       pol_using := None; pol_with_check := Some AuthUidEqId |};
    {| pol_name := "Users can update own profile."; pol_table := "profiles";
       pol_cmd := ForUpdate;
       pol_using := Some AuthUidEqId; pol_with_check := None |};
    {| pol_name := "Users can delete own profile."; pol_table := "profiles";
       pol_cmd := ForDelete;
       pol_using := Some AuthUidEqId; pol_with_check := None |} ].

(** SQL three-valued evaluation: [None] is NULL.  [auth.uid()] is NULL
    for a caller with no authenticated identity. *)
Definition eval_expr (e : Expr) (auth_uid : option uuid) (row : Profile)
  : option bool :=
  match e with
  | AuthUidEqId => u ← auth_uid; Some (bool_decide (u = id row))
  end.

(** A qualification admits a row only when it evaluates to true. *)
Definition qual_holds (q : option Expr) (auth_uid : option uuid)
    (row : Profile) : bool :=
  match q with
  | Some e => default false (eval_expr e auth_uid row)
  | None => false
  end.

(** The expression checked on new rows: WITH CHECK, or USING when the
    policy has no WITH CHECK. *)
Definition with_check_qual (p : Policy) : option Expr :=
  match pol_with_check p with
  | Some e => Some e
  | None => pol_using p
  end.

(** Permissive policies are OR-ed; with no applicable policy no row
    passes. *)
Definition using_passes (cmd : Command) (auth_uid : option uuid)
    (row : Profile) : bool :=
  existsb (fun p => bool_decide (pol_cmd p = cmd)
                    && qual_holds (pol_using p) auth_uid row)
          profiles_policies.

Definition check_passes (cmd : Command) (auth_uid : option uuid)
    (row : Profile) : bool :=
  existsb (fun p => bool_decide (pol_cmd p = cmd)
                    && qual_holds (with_check_qual p) auth_uid row)
          profiles_policies.

Inductive Caller :=
| Role (auth_uid : option uuid)   (* anon / authenticated, under RLS *)
| TableOwner.                     (* security definer, RLS not applied *)

Definition select_permitted (c : Caller) (row : Profile) : bool :=
  match c with
  | Role u => using_passes ForSelect u row
  | TableOwner => true
  end.

Definition insert_permitted (c : Caller) (row : Profile) : bool :=
  match c with
  | Role u => check_passes ForInsert u row
  | TableOwner => true
  end.

(** An UPDATE that reads the table (WHERE, RETURNING) is subject to the
    SELECT policies as well as the UPDATE ones. *)
Definition update_locates (c : Caller) (row : Profile) : bool :=
  match c with
  | Role u => using_passes ForSelect u row && using_passes ForUpdate u row
  | TableOwner => true
  end.

Definition update_result_permitted (c : Caller) (new : Profile) : bool :=
  match c with
  | Role u => check_passes ForUpdate u new && check_passes ForSelect u new
  | TableOwner => true
  end.

Definition update_permitted (c : Caller) (old new : Profile) : bool :=
  update_locates c old && update_result_permitted c new.

Definition delete_permitted (c : Caller) (row : Profile) : bool :=
  match c with
  | Role u => using_passes ForSelect u row && using_passes ForDelete u row
  | TableOwner => true
  end.

(** *** Statements on [profiles] *)

(** Shapes of a read: a filter, an optional ordering, an optional row
    limit. *)
Record Query := {
  q_where : Profile -> bool;
  q_order : option (Profile -> Profile -> bool);
  q_limit : option nat
}.

Fixpoint insert_sorted (le : Profile -> Profile -> bool) (x : Profile)
    (l : list Profile) : list Profile :=
  match l with
  | [] => [x]
  | y :: t => if le x y then x :: l else y :: insert_sorted le x t
  end.

Definition sort_by (le : Profile -> Profile -> bool) (l : list Profile)
  : list Profile :=
  foldr (insert_sorted le) [] l.

(** Policies are applied row by row, before the query's own clauses. *)
Definition visible_rows (c : Caller) (db : Db) : list Profile :=
  List.filter (select_permitted c) (profiles db).

Definition run_select (c : Caller) (q : Query) (db : Db) : list Profile :=
  let matched := List.filter (q_where q) (visible_rows c db) in
  let ordered := match q_order q with
                 | Some le => sort_by le matched
                 | None => matched
                 end in
  match q_limit q with
  | Some n => take n ordered
  | None => ordered
  end.

Definition id_taken (i : uuid) (rows : list Profile) : bool :=
  existsb (fun r => bool_decide (id r = i)) rows.

(** INSERT of one row: the policy check on the new row, then the
    primary key. *)
Definition run_insert (c : Caller) (row : Profile) (db : Db) : Result Db :=
  if insert_permitted c row then
    if id_taken (id row) (profiles db) then Err unique_violation
    else Ok (with_profiles db (profiles db ++ [row]))
  else Err insufficient_privilege.

(** INSERT of several rows in one statement: all or nothing. *)
Fixpoint run_insert_many (c : Caller) (rows : list Profile) (db : Db)
  : Result Db :=
  match rows with
  | [] => Ok db
  | r :: rest => db' ← run_insert c r db; run_insert_many c rest db'
  end.

(** The SET list of an UPDATE: an optional new value per column. *)
Record SetClause := {
  set_id : option uuid;
  set_email : option text;
  set_full_name : option (option text);
  set_avatar_url : option (option text);
  set_created_at : option timestamp;
  set_updated_at : option timestamp
}.

Definition set_nothing : SetClause :=
  {| set_id := None; set_email := None; set_full_name := None;
     set_avatar_url := None; set_created_at := None;
     set_updated_at := None |}.

Definition apply_set (st : SetClause) (r : Profile) : Profile :=
  {| id := default (id r) (set_id st);
     email := default (email r) (set_email st);
     full_name := default (full_name r) (set_full_name st);
     avatar_url := default (avatar_url r) (set_avatar_url st);
     created_at := default (created_at r) (set_created_at st);
     updated_at := default (updated_at r) (set_updated_at st) |}.

(** *** Trigger functions (sql/2-add-functions.sql) *)

(** [public.update_updated_at_column()]:
    [new.updated_at = timezone('utc'::text, now()); return new;] *)
Definition update_updated_at_column (new : Profile) (now : timestamp)
  : Profile :=
  {| id := id new; email := email new; full_name := full_name new;
     avatar_url := avatar_url new; created_at := created_at new;
     updated_at := now |}.

(** Trigger [update_profiles_updated_at]: before update on profiles,
    for each row. *)
Definition update_profiles_updated_at (new : Profile) (now : timestamp)
  : Profile :=
  update_updated_at_column new now.

(** The row an UPDATE writes in place of [r]: the SET list applied,
    then the BEFORE UPDATE row trigger. *)
Definition updated_row (st : SetClause) (now : timestamp) (r : Profile)
  : Profile :=
  update_profiles_updated_at (apply_set st r) now.

(** The primary key: no two rows share an [id]. *)
Fixpoint ids_unique (rows : list Profile) : bool :=
  match rows with
  | [] => true
  | r :: rest => negb (id_taken (id r) rest) && ids_unique rest
  end.

(** The UPDATE, row by row: [done] holds the rows already processed,
    [rows] the ones still to process.  The result is the table after
    the statement and the rows it touched (RETURNING).  Rows the
    policies hide are skipped silently; a new row the policies reject,
    or one whose [id] is taken by another row, aborts the statement. *)
Fixpoint update_rows (c : Caller) (wh : Profile -> bool) (st : SetClause)
    (now : timestamp) (done rows : list Profile)
  : Result (list Profile * list Profile) :=
  match rows with
  | [] => Ok (done, [])
  | r :: rest =>
      if update_locates c r && wh r then
        let new := updated_row st now r in
        if update_result_permitted c new then
          if id_taken (id new) (done ++ rest) then Err unique_violation
          else
            '(final, ret) ← update_rows c wh st now (done ++ [new]) rest;
            Ok (final, new :: ret)
        else Err insufficient_privilege
      else update_rows c wh st now (done ++ [r]) rest
  end.

Definition run_update (c : Caller) (wh : Profile -> bool) (st : SetClause)
    (now : timestamp) (db : Db) : Result (Db * list Profile) :=
  '(rows, ret) ← update_rows c wh st now [] (profiles db);
  Ok (with_profiles db rows, ret).

(** DELETE: rows the policies hide are skipped silently. *)
Definition run_delete (c : Caller) (wh : Profile -> bool) (db : Db)
  : Db * list Profile :=
  let hit r := delete_permitted c r && wh r in
  (with_profiles db (List.filter (fun r => negb (hit r)) (profiles db)),
   List.filter hit (profiles db)).

(** Modelled from the spec: [sql/1-create-tables.sql], which declares
    the columns of [profiles] and their defaults, is not among the
    sources.  The spec gives the defaults: [avatar_url] absent,
    [created_at] and [updated_at] the current time. *)
Definition default_avatar_url : option text := None.
Definition default_created_at (now : timestamp) : timestamp := now.
Definition default_updated_at (now : timestamp) : timestamp := now.

(** [public.handle_new_user()], security definer:
    [insert into public.profiles (id, email, full_name)
     values (new.id, new.email,
             coalesce(new.raw_user_meta_data->>'full_name', ''));
     return new;]
    The columns the INSERT does not list take their defaults.  The
    function has no exception handler: an error of the INSERT is the
    error of the function. *)
Definition handle_new_user (new : Auth.users) (now : timestamp) (db : Db)
  : Result (Auth.users * Db) :=
  db' ← run_insert TableOwner
        {| id := Auth.id new;
           email := Auth.email new;
           full_name :=
             Some (coalesce
                     (arrow_text (Auth.raw_user_meta_data new)
                                 (js "full_name"))
                     (js ""));
           avatar_url := default_avatar_url;
           created_at := default_created_at now;
           updated_at := default_updated_at now |} db;
  Ok (new, db').

(** Trigger [on_auth_user_created]: after insert on auth.users, for
    each row.  The value returned by an AFTER trigger is ignored. *)
Definition on_auth_user_created (new : Auth.users) (now : timestamp)
    (db : Db) : Result Db :=
  '(_, db') ← handle_new_user new now db; Ok db'.

Definition user_exists (i : uuid) (us : list Auth.users) : bool :=
  existsb (fun u => bool_decide (Auth.id u = i)) us.

(** Creation of an identity: the INSERT into [auth.users] with its AFTER
    INSERT trigger, as one transaction body. *)
Definition insert_auth_users (new : Auth.users) (now : timestamp)
    (db : Db) : Result Db :=
  if user_exists (Auth.id new) (auth_users db) then Err unique_violation
  else
    on_auth_user_created new now
      {| auth_users := auth_users db ++ [new]; profiles := profiles db |}.

Definition create_identity (new : Auth.users) (now : timestamp) (db : Db)
  : Db :=
  commit db (insert_auth_users new now db).

(** The [full_name] entry of the identity's metadata, if any. *)
Definition meta_full_name (new : Auth.users) : option json :=
  o ← Auth.raw_user_meta_data new; o !! js "full_name".

(** Every identity has a profile row. *)
Definition identities_have_profiles (db : Db) : Prop :=
  forall u, u ∈ auth_users db -> id_taken (Auth.id u) (profiles db) = true.

(** The row [handle_new_user] inserts. *)
Definition provisioned_row (new : Auth.users) (now : timestamp) : Profile :=
  {| id := Auth.id new;
     email := Auth.email new;
     full_name := Some (default (js "") (meta_full_name new ≫= json_as_text));
     avatar_url := None;
     created_at := now;
     updated_at := now |}.

(** The row an UPDATE leaves in place of [r]. *)
Definition rewritten (c : Caller) (wh : Profile -> bool) (st : SetClause)
    (now : timestamp) (r : Profile) : Profile :=
  if update_locates c r && wh r then updated_row st now r else r.

(** Sample identities and states. *)
Definition ann : Auth.users :=
  {| Auth.id := "U1"; Auth.email := js "a@x.com";
     Auth.raw_user_meta_data :=
       Some {[ js "full_name" := JString (js "Ann") ]} |}.

Definition bob : Auth.users :=
  {| Auth.id := "U2"; Auth.email := js "b@x.com";
     Auth.raw_user_meta_data := None |}.

(** A state with a profile row for U2 and no identity U2. *)
Definition stray_profile_db : Db :=
  {| auth_users := [ann];
     profiles := [ provisioned_row ann 100; provisioned_row bob 50 ] |}.

Definition ann_db : Db := create_identity ann 100 empty_db.

End Store.

(** ** The profile access functions

    [lib/profile-server.ts] (getProfile) and [lib/profile-client.ts]
    (updateProfile) are not among the sources; their unit tests and their
    caller [handleSubmit] are. *)

Module Access.
Import JsString ProfileUtils Store.

Inductive PostgrestError :=
| PGRST116                      (* the result is not exactly one row *)
| Database (e : SqlError).

Record Response := {
  data : option Profile;
  error : option PostgrestError
}.

(** [.single()]: exactly one row, or the error PGRST116. *)
Definition single (rows : list Profile) : Response :=
  match rows with
  | [r] => {| data := Some r; error := None |}
  | _ => {| data := None; error := Some PGRST116 |}
  end.

(** The response of a request that found no row. *)
Definition not_found : Response :=
  {| data := None; error := Some PGRST116 |}.

Definition eq_id (i : uuid) : Query :=
  {| q_where := fun r => bool_decide (id r = i);
     q_order := None; q_limit := None |}.

(** Modelled from the spec: [lib/profile-server.ts] is missing.
    fetchProfile is performed as the caller's own identity and relies on
    the policies to scope the result.  The request is the one its test
    observes, [from('profiles').select('*').eq('id', userId).single()]. *)
Definition getProfile_response (session : option uuid) (userId : uuid)
    (db : Db) : Response :=
  single (run_select (Role session) (eq_id userId) db).

(** Modelled from the spec: [lib/profile-server.ts] is missing.
    Not-found is returned as a null result, whatever the error of the
    request was. *)
Definition getProfile (session : option uuid) (userId : uuid) (db : Db)
  : option Profile :=
  let r := getProfile_response session userId db in
  match error r with
  | Some _ => None
  | None => data r
  end.

(** Modelled from the spec: the fields a caller hands to updateProfile:
    the two editable ones, and an [updated_at] the caller may try to
    supply. *)
Record ProfileUpdates := {
  u_full_name : option text;
  u_avatar_url : option text;
  u_updated_at : option timestamp
}.

Definition to_set_clause (u : ProfileUpdates) : SetClause :=
  {| set_id := None;
     set_email := None;
     set_full_name := Some <$> u_full_name u;
     set_avatar_url := Some <$> u_avatar_url u;
     set_created_at := None;
     set_updated_at := u_updated_at u |}.

Inductive UpdateError :=
| NotAuthenticated                 (* 'User not authenticated' *)
| RequestFailed (e : PostgrestError).

Record UpdateOutcome := {
  upd_data : option Profile;
  upd_error : option UpdateError
}.

(** Modelled from the spec: [lib/profile-client.ts] is missing.
    updateProfile writes the fields it is given to the row of the
    session's identity; the request is the one its test observes,
    [from('profiles').update(updates).eq('id', user.id).select().single()],
    refused with 'User not authenticated' when there is no session user.
    A request that fails leaves the table as it was. *)
Definition updateProfile (session : option uuid) (updates : ProfileUpdates)
    (now : timestamp) (db : Db) : UpdateOutcome * Db :=
  match session with
  | None => ({| upd_data := None; upd_error := Some NotAuthenticated |}, db)
  | Some uid =>
      match run_update (Role (Some uid)) (fun r => bool_decide (id r = uid))
              (to_set_clause updates) now db with
      | Ok (db', rows) =>
          let resp := single rows in
          match error resp with
          | Some e =>
              ({| upd_data := None; upd_error := Some (RequestFailed e) |},
               db)
          | None => ({| upd_data := data resp; upd_error := None |}, db')
          end
      | Err e =>
          ({| upd_data := None;
              upd_error := Some (RequestFailed (Database e)) |}, db)
      end
  end.

(** The object [sanitizeProfileData] returns, as update fields: it has
    the two keys [full_name] and [avatar_url] and no other. *)
Definition updates_of_form (d : FormData) : ProfileUpdates :=
  {| u_full_name := Some (fd_full_name d);
     u_avatar_url := Some (fd_avatar_url d);
     u_updated_at := None |}.

(** [handleSubmit] of components/profile/profile-edit-form.tsx:
    [const sanitizedData = sanitizeProfileData(formData);
     const { error } = await updateProfile(sanitizedData);] *)
Definition handleSubmit (session : option uuid) (formData : FormData)
    (now : timestamp) (db : Db) : UpdateOutcome * Db :=
  updateProfile session (updates_of_form (sanitizeProfileData formData))
                now db.

End Access.

(** ** Life of the store: sequences of operations *)

Module Lifecycle.
Import JsString Store Access.

(** What reaches the store: the creation of an identity by the
    authentication subsystem, the two access functions, and reads and
    updates sent to the table directly by a PostgREST role. *)
Inductive Op :=
| CreateIdentity (new : Auth.users)
| FetchProfile (session : option uuid) (userId : uuid)
| UpdateProfile (session : option uuid) (updates : ProfileUpdates)
| Select (auth_uid : option uuid) (q : Query)
| Update (auth_uid : option uuid) (wh : Profile -> bool) (st : SetClause).

(** One operation, run at server time [now]; a statement that fails
    leaves the store as it was. *)
Definition step (now : timestamp) (op : Op) (db : Db) : Db :=
  match op with
  | CreateIdentity new => create_identity new now db
  | FetchProfile _ _ => db
  | UpdateProfile session updates => (updateProfile session updates now db).2
  | Select _ _ => db
  | Update auth_uid wh st =>
      match run_update (Role auth_uid) wh st now db with
      | Ok (db', _) => db'
      | Err _ => db
      end
  end.

Fixpoint run (trace : list (timestamp * Op)) (db : Db) : Db :=
  match trace with
  | [] => db
  | (now, op) :: rest => run rest (step now op db)
  end.











(** Ann signs up, a stranger looks her profile up, Ann sets her avatar,
    then touches her row with an empty update. *)
Definition sample_trace : list (timestamp * Op) :=
  [ (100, CreateIdentity ann);
    (150, FetchProfile (Some "U2") "U1");
    (200, UpdateProfile (Some "U1")
            {| u_full_name := None;
               u_avatar_url := Some (js "https://cdn/x.png");
               u_updated_at := Some 1 |});
    (300, Update (Some "U1") (fun _ => true) set_nothing) ].


End Lifecycle.

(** ** The schema catalogue and the setup scripts *)

Module Catalog.
Import Store.

Inductive Timing := Before | After.
Inductive Event := OnInsert | OnUpdate.

(** The two plpgsql bodies of sql/2-add-functions.sql. *)
Inductive FunctionBody :=
| Body_handle_new_user
| Body_update_updated_at_column.

Record FunctionDef := {
  fn_body : FunctionBody;
  fn_security_definer : bool
}.

Record TriggerDef := {
  trg_timing : Timing;
  trg_event : Event;
  trg_function : string
}.

(** Triggers and policies are named per table: the key is
    (table, name). *)
Record Schema := {
  tables : gset string;
  rls_enabled : gset string;
  functions : gmap string FunctionDef;
  triggers : gmap (string * string) TriggerDef;
  policies : gmap (string * string) Policy
}.

Inductive DdlError :=
| undefined_table                  (* 42P01 *)
| undefined_function               (* 42883 *)
| duplicate_object                 (* 42710 *)
| dependent_objects_still_exist.   (* 2BP01 *)

Inductive Stmt :=
| DropTriggerIfExists (name table : string)
| DropFunctionIfExists (name : string)
| CreateOrReplaceFunction (name : string) (def : FunctionDef)
| CreateTrigger (name table : string) (def : TriggerDef)
| DropPolicyIfExists (name table : string)
| EnableRowLevelSecurity (table : string)
| CreatePolicy (p : Policy).

(** No trigger of the schema executes function [f]. *)
Definition unused_function (f : string)
    (ts : gmap (string * string) TriggerDef) : Prop :=
  map_Forall (fun _ d => trg_function d <> f) ts.

Global Instance unused_function_dec f ts : Decision (unused_function f ts).
Proof. unfold unused_function. apply _. Defined.

Definition with_rls (c : Schema) (r : gset string) : Schema :=
  {| tables := tables c; rls_enabled := r; functions := functions c;
     triggers := triggers c; policies := policies c |}.

Definition with_functions (c : Schema) (f : gmap string FunctionDef)
  : Schema :=
  {| tables := tables c; rls_enabled := rls_enabled c; functions := f;
     triggers := triggers c; policies := policies c |}.

Definition with_triggers (c : Schema) (t : gmap (string * string) TriggerDef)
  : Schema :=
  {| tables := tables c; rls_enabled := rls_enabled c;
     functions := functions c; triggers := t; policies := policies c |}.

Definition with_policies (c : Schema) (p : gmap (string * string) Policy)
  : Schema :=
  {| tables := tables c; rls_enabled := rls_enabled c;
     functions := functions c; triggers := triggers c; policies := p |}.

(** One statement.  The IF EXISTS forms skip an object that is not
    there; DROP FUNCTION refuses to drop a function a trigger still
    executes; CREATE TRIGGER and CREATE POLICY refuse a name already
    taken on the table. *)
Definition exec (st : Stmt) (c : Schema) : DdlError + Schema :=
  match st with
  | DropTriggerIfExists name table =>
      inr (with_triggers c (delete (table, name) (triggers c)))
  | DropFunctionIfExists name =>
      match functions c !! name with
      | None => inr c
      | Some _ =>
          if decide (unused_function name (triggers c)) then
            inr (with_functions c (delete name (functions c)))
          else inl dependent_objects_still_exist
      end
  | CreateOrReplaceFunction name def =>
      inr (with_functions c (<[name := def]> (functions c)))
  | CreateTrigger name table def =>
      if decide (table ∈ tables c) then
        match functions c !! trg_function def with
        | None => inl undefined_function
        | Some _ =>
            match triggers c !! (table, name) with
            | Some _ => inl duplicate_object
            | None =>
                inr (with_triggers c (<[(table, name) := def]> (triggers c)))
            end
        end
      else inl undefined_table
  | DropPolicyIfExists name table =>
      inr (with_policies c (delete (table, name) (policies c)))
  | EnableRowLevelSecurity table =>
      if decide (table ∈ tables c) then
        inr (with_rls c ({[table]} ∪ rls_enabled c))
      else inl undefined_table
  | CreatePolicy p =>
      if decide (pol_table p ∈ tables c) then
        match policies c !! (pol_table p, pol_name p) with
        | Some _ => inl duplicate_object
        | None =>
            inr (with_policies c
                   (<[(pol_table p, pol_name p) := p]> (policies c)))
        end
      else inl undefined_table
  end.

Fixpoint exec_script (script : list Stmt) (c : Schema)
  : DdlError + Schema :=
  match script with
  | [] => inr c
  | st :: rest =>
      match exec st c with
      | inr c' => exec_script rest c'
      | inl e => inl e
      end
  end.

Definition def_handle_new_user : FunctionDef :=
  {| fn_body := Body_handle_new_user; fn_security_definer := true |}.

Definition def_update_updated_at_column : FunctionDef :=
  {| fn_body := Body_update_updated_at_column;
     fn_security_definer := false |}.

Definition def_on_auth_user_created : TriggerDef :=
  {| trg_timing := After; trg_event := OnInsert;
     trg_function := "handle_new_user" |}.

Definition def_update_profiles_updated_at : TriggerDef :=
  {| trg_timing := Before; trg_event := OnUpdate;
     trg_function := "update_updated_at_column" |}.

(** sql/2-add-functions.sql *)
Definition add_functions : list Stmt :=
  [ DropTriggerIfExists "on_auth_user_created" "auth.users";
    DropTriggerIfExists "update_profiles_updated_at" "profiles";
    DropFunctionIfExists "handle_new_user";
    DropFunctionIfExists "update_updated_at_column";
    CreateOrReplaceFunction "handle_new_user" def_handle_new_user;
    CreateOrReplaceFunction "update_updated_at_column"
                            def_update_updated_at_column;
    CreateTrigger "on_auth_user_created" "auth.users"
                  def_on_auth_user_created;
    CreateTrigger "update_profiles_updated_at" "profiles"
                  def_update_profiles_updated_at ].

(** sql/3-enable-rls-policies.sql *)
Definition enable_rls_policies : list Stmt :=
  [ DropPolicyIfExists "Users can view own profile" "profiles";
    DropPolicyIfExists "Users can insert their own profile." "profiles";
    DropPolicyIfExists "Users can update own profile." "profiles";
    DropPolicyIfExists "Users can delete own profile." "profiles";
    EnableRowLevelSecurity "profiles" ]
  ++ map CreatePolicy profiles_policies.

Definition setup : list Stmt := add_functions ++ enable_rls_policies.

(** The setup scripts run [n] times in a row. *)
Fixpoint setup_times (n : nat) (c : Schema) : DdlError + Schema :=
  match n with
  | O => inr c
  | S n' =>
      match exec_script setup c with
      | inr c' => setup_times n' c'
      | inl e => inl e
      end
  end.

(** Every trigger of the schema executes a function of the schema. *)
Definition consistent (c : Schema) : Prop :=
  map_Forall (fun _ d => is_Some (functions c !! trg_function d))
             (triggers c).

Definition key_on_auth_user_created : string * string :=
  ("auth.users", "on_auth_user_created").
Definition key_update_profiles_updated_at : string * string :=
  ("profiles", "update_profiles_updated_at").

Definition policy_key (p : Policy) : string * string :=
  (pol_table p, pol_name p).

(** The schema the setup leaves: the two functions, the two triggers and
    the four policies put in place of whatever carried their names, row
    level security enabled on [profiles]. *)
Definition installed (c : Schema) : Schema :=
  {| tables := tables c;
     rls_enabled := {["profiles"]} ∪ rls_enabled c;
     functions :=
       <["update_updated_at_column" := def_update_updated_at_column]>
         (<["handle_new_user" := def_handle_new_user]>
            (delete "update_updated_at_column"
               (delete "handle_new_user" (functions c))));
     triggers :=
       <[key_update_profiles_updated_at := def_update_profiles_updated_at]>
         (<[key_on_auth_user_created := def_on_auth_user_created]>
            (delete key_update_profiles_updated_at
               (delete key_on_auth_user_created (triggers c))));
     policies :=
       foldl (fun m p => <[policy_key p := p]> m)
             (foldl (fun m p => delete (policy_key p) m) (policies c)
                    profiles_policies)
             profiles_policies |}.

(** Objects put in place of whatever carried their names: the old ones
    dropped first, the new ones created after. *)
Section Reinstall.
Context `{Countable K} {V : Type}.

Definition drop_all (kvs : list (K * V)) (m : gmap K V) : gmap K V :=
  foldl (fun m kv => delete kv.1 m) m kvs.

Definition put_all (kvs : list (K * V)) (m : gmap K V) : gmap K V :=
  foldl (fun m kv => <[kv.1 := kv.2]> m) m kvs.

Definition reinstall (kvs : list (K * V)) (m : gmap K V) : gmap K V :=
  put_all kvs (drop_all kvs m).

Definition latest_from (acc : option V) (kvs : list (K * V)) (k : K)
  : option V :=
  foldl (fun acc kv => if decide (kv.1 = k) then Some kv.2 else acc) acc kvs.

End Reinstall.

(** The triggers left once the two DROP TRIGGER of the script have run. *)
Definition dropped_triggers (c : Schema) : gmap (string * string) TriggerDef :=
  delete key_update_profiles_updated_at
    (delete key_on_auth_user_created (triggers c)).

(** What the setup needs of the schema it starts from: the two tables,
    and no other trigger executing the functions it drops. *)
Definition ready (c : Schema) : Prop :=
  "auth.users" ∈ tables c
  /\ "profiles" ∈ tables c
  /\ (functions c !! "handle_new_user" = None
      \/ unused_function "handle_new_user" (dropped_triggers c))
  /\ (delete "handle_new_user" (functions c) !! "update_updated_at_column"
      = None
      \/ unused_function "update_updated_at_column" (dropped_triggers c)).

Definition trigger_defs : list ((string * string) * TriggerDef) :=
  [ (key_on_auth_user_created, def_on_auth_user_created);
    (key_update_profiles_updated_at, def_update_profiles_updated_at) ].

Definition function_defs : list (string * FunctionDef) :=
  [ ("handle_new_user", def_handle_new_user);
    ("update_updated_at_column", def_update_updated_at_column) ].

Definition policy_defs : list ((string * string) * Policy) :=
  map (fun p => (policy_key p, p)) profiles_policies.

(** A database in which the two tables exist and nothing else is
    installed. *)
Definition tables_only : Schema :=
  {| tables := {["auth.users"; "profiles"]}; rls_enabled := ∅;
     functions := ∅; triggers := ∅; policies := ∅ |}.

End Catalog.

(** ** components/app-sidebar.tsx: the helpers of the sidebar *)

Module Sidebar.
Import JsString ProfileUtils Store.

(** The fields of the session's user the sidebar reads. *)
Record User := { user_email : option jsstring }.

(** [x] is truthy, for [x] a string, [null] or [undefined]. *)
Definition truthy_opt (x : option jsstring) : bool :=
  match x with
  | Some s => truthy s
  | None => false
  end.

Definition at_sign : code_unit := 64%N.

(** [s.slice(0, 2)] *)
Definition slice_0_2 (s : jsstring) : jsstring := take 2 s.

(** [profile?.full_name] and [user?.email]: [None] when the object or
    the field is missing. *)
Definition profile_full_name (profile : option Profile) : option jsstring :=
  profile ≫= full_name.

Definition user_email_of (user : option User) : option jsstring :=
  user ≫= user_email.

(** [getDisplayName]; the result is [None] when the expression is
    [undefined]:
    [if (profile?.full_name) return profile.full_name;
     if (user?.email) return user.email.split("@")[0];
     return "Guest User";] *)
Definition getDisplayName (profile : option Profile) (user : option User)
  : option jsstring :=
  if truthy_opt (profile_full_name profile) then profile_full_name profile
  else if truthy_opt (user_email_of user)
       then e ← user_email_of user; head (split at_sign e)
       else Some (js "Guest User").

(** [getInitials]:
    [if (profile?.full_name)
       return profile.full_name.split(" ").map((n) => n[0]).join("")
                .toUpperCase().slice(0, 2);
     if (user?.email) return user.email.slice(0, 2).toUpperCase();
     return "GU";] *)
Definition getInitials `{JsHost} (profile : option Profile)
    (user : option User) : option jsstring :=
  if truthy_opt (profile_full_name profile)
  then n ← profile_full_name profile;
       Some (slice_0_2 (toUpperCase (join_empty (map index0 (split space n)))))
  else if truthy_opt (user_email_of user)
       then e ← user_email_of user; Some (toUpperCase (slice_0_2 e))
       else Some (js "GU").

(** [s.startsWith(p)] *)
Fixpoint startsWith (s p : jsstring) : bool :=
  match p, s with
  | [], _ => true
  | c :: p', d :: s' => (c =? d)%N && startsWith s' p'
  | _ :: _, [] => false
  end.

(** [isActiveRoute(url)], for the current [pathname]:
    [if (url === "/") return pathname === "/";
     return pathname.startsWith(url);] *)
Definition isActiveRoute (pathname url : jsstring) : bool :=
  if bool_decide (url = js "/") then bool_decide (pathname = js "/")
  else startsWith pathname url.

(** The urls of [navMain]. *)
Definition navMain : list jsstring := [ js "/"; js "/profile" ].

End Sidebar.

(** ** components/profile/profile-card.tsx: what the card shows *)

Module ProfileCard.
Import JsString Store Sidebar.

(** [profile.full_name || "No name set"] *)
Definition shown_name (profile : Profile) : jsstring :=
  if truthy_opt (full_name profile) then default [] (full_name profile)
  else js "No name set".

(** [profile.full_name ? "Complete" : "Incomplete"] *)
Definition status (profile : Profile) : jsstring :=
  if truthy_opt (full_name profile) then js "Complete" else js "Incomplete".

End ProfileCard.

(** ** Sample rows and SET lists *)

Module Samples.
Import JsString Store.

(** A profile whose name is two spaces. *)
Definition blank_profile : Profile :=
  {| id := "U3"; email := js "c@x.com"; full_name := Some (js "  ");
     avatar_url := None; created_at := 10; updated_at := 10 |}.

(** A SET list that assigns the id U9. *)
Definition renaming_set : SetClause :=
  {| set_id := Some "U9"; set_email := None; set_full_name := None;
     set_avatar_url := None; set_created_at := None;
     set_updated_at := None |}.

End Samples.

(** ** Strings without white space at their ends *)

Module Trimmed.
Import JsString.

(** The string does not begin with white space. *)
Definition clean_start (s : jsstring) : Prop :=
  match s with
  | [] => True
  | c :: _ => is_js_whitespace c = false
  end.

(** The string neither begins nor ends with white space. *)
Definition clean (s : jsstring) : Prop :=
  clean_start s /\ clean_start (reverse s).

End Trimmed.

(** ** The two setup scripts taken apart, and sample schemas *)

Module CatalogParts.
Import Store Catalog.

(** What sql/2-add-functions.sql leaves, and what
    sql/3-enable-rls-policies.sql leaves, each run on its own. *)
Definition installed_functions (c : Schema) : Schema :=
  {| tables := tables c;
     rls_enabled := rls_enabled c;
     functions := functions (installed c);
     triggers := triggers (installed c);
     policies := policies c |}.

Definition installed_policies (c : Schema) : Schema :=
  {| tables := tables c;
     rls_enabled := rls_enabled (installed c);
     functions := functions c;
     triggers := triggers c;
     policies := policies (installed c) |}.

(** A schema with no table at all. *)
Definition no_tables : Schema :=
  {| tables := ∅; rls_enabled := ∅; functions := ∅; triggers := ∅;
     policies := ∅ |}.

(** A schema in which a trigger of another table executes
    [handle_new_user]. *)
Definition audited_schema : Schema :=
  {| tables := {["auth.users"; "profiles"; "audit_log"]};
     rls_enabled := ∅;
     functions := {[ "handle_new_user" := def_handle_new_user ]};
     triggers := {[ ("audit_log", "on_audit") := def_on_auth_user_created ]};
     policies := ∅ |}.

End CatalogParts.

(** * Properties *)

(** ** JavaScript strings *)

Module JsStringFacts.
Import JsString.

Lemma trimStart_nil_iff (s : jsstring) :
  trimStart s = [] <-> whitespace_only s.
Proof.
  unfold whitespace_only. induction s as [|c r IH]; simpl.
  - split; [constructor | reflexivity].
  - destruct (is_js_whitespace c) eqn:E.
    + rewrite IH. split.
      * intros Hr. by constructor.
      * intros Hr. by inversion Hr.
    + split; [discriminate |].
      intros Hr. inversion Hr; congruence.
Qed.

Lemma trimStart_suffix (s : jsstring) : trimStart s `suffix_of` s.
Proof.
  induction s as [|c r IH]; simpl; [done |].
  destruct (is_js_whitespace c); [by apply suffix_cons_r | done].
Qed.

Lemma trimStart_head (s : jsstring) c r :
  trimStart s = c :: r -> is_js_whitespace c = false.
Proof.
  induction s as [|d t IH]; simpl; [discriminate |].
  destruct (is_js_whitespace d) eqn:E; [done |].
  intros [= -> _]. done.
Qed.

Lemma whitespace_only_reverse (s : jsstring) :
  whitespace_only (reverse s) <-> whitespace_only s.
Proof.
  unfold whitespace_only. rewrite !Forall_forall.
  split; intros Hs c Hc; apply Hs.
  - by apply elem_of_reverse.
  - by rewrite elem_of_reverse in Hc.
Qed.

Lemma trimEnd_nil_iff (s : jsstring) :
  trimEnd s = [] <-> whitespace_only s.
Proof.
  unfold trimEnd.
  rewrite <- whitespace_only_reverse, <- trimStart_nil_iff.
  split; intros Hs.
  - apply (f_equal reverse) in Hs. by rewrite reverse_involutive in Hs.
  - by rewrite Hs.
Qed.

(** [trim] leaves nothing exactly when the string is empty or white
    space only. *)
Lemma trim_nil_iff (s : jsstring) : trim s = [] <-> whitespace_only s.
Proof.
  unfold trim. rewrite trimEnd_nil_iff. split.
  - intros Hs. apply trimStart_nil_iff.
    destruct (trimStart s) as [|c r] eqn:E; [done |].
    apply trimStart_head in E. inversion Hs; congruence.
  - intros Hs. apply trimStart_nil_iff in Hs. rewrite Hs. constructor.
Qed.

Lemma truthy_true (s : jsstring) : truthy s = true <-> s <> [].
Proof. destruct s; simpl; split; congruence. Qed.

Lemma truthy_false (s : jsstring) : truthy s = false <-> s = [].
Proof. destruct s; simpl; split; congruence. Qed.

(** Joining the [n[0]] of the words yields the first units of the
    words. *)
Lemma join_index0 (words : list jsstring) :
  join_empty (map index0 words) = first_units words.
Proof.
  unfold join_empty, first_units.
  induction words as [|w ws IH]; simpl; [done |].
  rewrite IH. by destruct w.
Qed.

End JsStringFacts.

(** ** lib/profile-utils.ts *)

Module ProfileUtilsFacts.
Import JsString ProfileUtils.

Example initials_single :
  generateInitials (H := test_host) (Some (js "John")) (js "test@example.com")
  = Normal (js "J").
Proof. reflexivity. Qed.

Example initials_extra_spaces :
  generateInitials (H := test_host) (Some (js "John   Doe")) (js "test@example.com")
  = Normal (js "JD").
Proof. reflexivity. Qed.

Example initials_whitespace_name :
  generateInitials (H := test_host) (Some (js "   ")) (js "test@example.com")
  = Normal (js "T").
Proof. reflexivity. Qed.

Example initials_lowercase :
  generateInitials (H := test_host) (Some (js "john doe")) (js "test@example.com")
  = Normal (js "JD").
Proof. reflexivity. Qed.

Example avatar_https :
  isValidAvatarUrl (H := test_host) (js "https://example.com/avatar.jpg")
  = Normal true.
Proof. reflexivity. Qed.

Example avatar_ftp :
  isValidAvatarUrl (H := test_host) (js "ftp://example.com/avatar.jpg")
  = Normal false.
Proof. reflexivity. Qed.

Example avatar_not_a_url :
  isValidAvatarUrl (H := test_host) (js "not-a-url") = Normal false.
Proof. reflexivity. Qed.

Example avatar_whitespace :
  isValidAvatarUrl (H := test_host) (js "   ") = Normal true.
Proof. reflexivity. Qed.

Example sanitize_trims :
  sanitizeProfileData
    {| fd_full_name := js "  John Doe  ";
       fd_avatar_url := js "  https://example.com/avatar.jpg  " |}
  = {| fd_full_name := js "John Doe";
       fd_avatar_url := js "https://example.com/avatar.jpg" |}.
Proof. reflexivity. Qed.

Section Host.
Context `{JsHost}.

Lemma generateInitials_named (fullName fallbackEmail : jsstring) :
  trim fullName <> [] ->
  generateInitials (Some fullName) fallbackEmail
  = Normal (toUpperCase (first_units (split space (trim fullName)))).
Proof.
  intros Hne. unfold generateInitials. simpl.
  apply JsStringFacts.truthy_true in Hne. rewrite Hne.
  by rewrite JsStringFacts.join_index0.
Qed.

Lemma generateInitials_fallback (fullName fallbackEmail : jsstring) :
  whitespace_only fullName ->
  generateInitials (Some fullName) fallbackEmail
  = call_toUpperCase (index0 fallbackEmail).
Proof.
  intros Hws. apply JsStringFacts.trim_nil_iff in Hws.
  unfold generateInitials. simpl. by rewrite Hws.
Qed.

Lemma generateInitials_no_name (fallbackEmail : jsstring) :
  generateInitials None fallbackEmail
  = call_toUpperCase (index0 fallbackEmail).
Proof. reflexivity. Qed.

Lemma isValidAvatarUrl_returns (url : jsstring) :
  exists b, isValidAvatarUrl url = Normal b.
Proof.
  unfold isValidAvatarUrl, new_URL.
  destruct (negb (truthy (trim url))); [by eexists |].
  destruct (parseURL url); simpl; by eexists.
Qed.

End Host.

(** C9. generateInitials: for a name whose trimmed value is not empty,
    the result is the upper-cased concatenation of the first character
    of each space-separated word of the trimmed name; for an empty or
    white-space-only name it is the upper-cased first character of the
    fallback email; the call returns for every name exactly when the
    fallback email is not empty, and with an empty email and an empty
    trimmed name it throws. *)
Theorem generateInitials_spec `{JsHost} (fullName fallbackEmail : jsstring) :
  (trim fullName <> [] ->
   generateInitials (Some fullName) fallbackEmail
   = Normal (toUpperCase (first_units (split space (trim fullName)))))
  /\ (whitespace_only fullName ->
      forall c rest, fallbackEmail = c :: rest ->
      generateInitials (Some fullName) fallbackEmail
      = Normal (toUpperCase [c]))
  /\ (trim fullName = [] -> fallbackEmail = [] ->
      generateInitials (Some fullName) fallbackEmail = Throw type_error)
  /\ ((forall name, exists v,
         generateInitials (Some name) fallbackEmail = Normal v)
      <-> fallbackEmail <> []).
Proof.
  split; [apply generateInitials_named |].
  split.
  { intros Hws c rest ->. by rewrite generateInitials_fallback. }
  split.
  { intros Ht ->. apply JsStringFacts.trim_nil_iff in Ht.
    by rewrite generateInitials_fallback. }
  split.
  - intros Htotal ->. destruct (Htotal []) as [v Hv].
    rewrite generateInitials_fallback in Hv by constructor.
    discriminate.
  - intros Hne name.
    destruct (decide (trim name = [])) as [Ht | Ht].
    + apply JsStringFacts.trim_nil_iff in Ht.
      rewrite generateInitials_fallback by done.
      destruct fallbackEmail; [done | by eexists].
    + rewrite generateInitials_named by done. by eexists.
Qed.

Lemma generateInitials_spec_witness :
  generateInitials (H := test_host) (Some (js " ann  lee "))
                   (js "a@x.com") = Normal (js "AL")
  /\ generateInitials (H := test_host) (Some (js "  ")) (js "a@x.com")
     = Normal (js "A")
  /\ generateInitials (H := test_host) (Some (js "  ")) (js "")
     = Throw type_error.
Proof.
  destruct (generateInitials_spec (H := test_host)
              (js " ann  lee ") (js "a@x.com")) as [Hnamed _].
  destruct (generateInitials_spec (H := test_host)
              (js "  ") (js "a@x.com")) as (_ & Hfall & _).
  destruct (generateInitials_spec (H := test_host)
              (js "  ") (js "")) as (_ & _ & Hthrow & _).
  split; [| split].
  - rewrite Hnamed; [reflexivity | discriminate].
  - rewrite (Hfall ltac:(by repeat constructor) _ _ eq_refl). reflexivity.
  - apply Hthrow; reflexivity.
Defined.

(** C10. isValidAvatarUrl: true for every empty or white-space-only
    string; for every other string, true exactly when the string parses
    as a URL whose protocol is http: or https: and whose hostname is
    not empty; false, and no exception, when the string does not
    parse. *)
Theorem isValidAvatarUrl_spec `{JsHost} (url : jsstring) :
  (whitespace_only url -> isValidAvatarUrl url = Normal true)
  /\ (~ whitespace_only url ->
      (isValidAvatarUrl url = Normal true
       <-> exists u, parseURL url = Some u
                     /\ (protocol u = js "http:" \/ protocol u = js "https:")
                     /\ hostname u <> []))
  /\ (~ whitespace_only url -> parseURL url = None ->
      isValidAvatarUrl url = Normal false)
  /\ (exists b, isValidAvatarUrl url = Normal b).
Proof.
  split.
  { intros Hws. apply JsStringFacts.trim_nil_iff in Hws.
    unfold isValidAvatarUrl. by rewrite Hws. }
  assert (Hother : ~ whitespace_only url ->
                   negb (truthy (trim url)) = false).
  { intros Hn. apply negb_false_iff, JsStringFacts.truthy_true.
    by rewrite JsStringFacts.trim_nil_iff. }
  split; [| split]; [| | apply isValidAvatarUrl_returns].
  - intros Hn. unfold isValidAvatarUrl, new_URL. rewrite (Hother Hn).
    destruct (parseURL url) as [u|]; simpl.
    + split.
      * intros [= Hv]. exists u. split; [done |].
        apply andb_true_iff in Hv as [Hp Hh].
        apply orb_true_iff in Hp.
        rewrite !bool_decide_eq_true in Hp.
        rewrite bool_decide_eq_true in Hh.
        split; [done |]. destruct (hostname u); simpl in *; [lia | done].
      * intros (u' & [= <-] & Hp & Hh). f_equal.
        apply andb_true_iff. split.
        -- apply orb_true_iff. by rewrite !bool_decide_eq_true.
        -- rewrite bool_decide_eq_true.
           destruct (hostname u); simpl; [done | lia].
    + split; [discriminate | by intros (u & Hu & _)].
  - intros Hn Hp. unfold isValidAvatarUrl, new_URL.
    by rewrite (Hother Hn), Hp.
Qed.

Lemma isValidAvatarUrl_spec_witness :
  isValidAvatarUrl (H := test_host) (js "  ") = Normal true
  /\ isValidAvatarUrl (H := test_host) (js "https://example.com/avatar.jpg")
     = Normal true
  /\ isValidAvatarUrl (H := test_host) (js "not-a-url") = Normal false.
Proof.
  destruct (isValidAvatarUrl_spec (H := test_host) (js "  "))
    as [Hempty _].
  destruct (isValidAvatarUrl_spec (H := test_host)
              (js "https://example.com/avatar.jpg")) as (_ & Hiff & _).
  destruct (isValidAvatarUrl_spec (H := test_host) (js "not-a-url"))
    as (_ & _ & Hfail & _).
  split; [| split].
  - apply Hempty. by repeat constructor.
  - apply Hiff.
    + intros Hws. inversion Hws; discriminate.
    + eexists. split; [reflexivity |]. split; [by right | discriminate].
  - apply Hfail; [| reflexivity].
    intros Hws. inversion Hws; discriminate.
Defined.

End ProfileUtilsFacts.

(** ** Row level security *)

Module PolicyFacts.
Import JsString Store.

Lemma using_passes_iff (cmd : Command) (u : option uuid) (row : Profile) :
  cmd <> ForInsert ->
  using_passes cmd u row = true <-> u = Some (id row).
Proof.
  intros Hcmd. unfold using_passes, profiles_policies. simpl.
  destruct cmd; try congruence; destruct u as [v|]; simpl;
    rewrite ?orb_false_r, ?bool_decide_eq_true;
    split; (congruence || discriminate).
Qed.

(** The check on new rows falls back on USING for the policies that
    have no WITH CHECK, so it is the ownership test for every
    command. *)
Lemma check_passes_iff (cmd : Command) (u : option uuid) (row : Profile) :
  check_passes cmd u row = true <-> u = Some (id row).
Proof.
  unfold check_passes, profiles_policies. simpl.
  destruct cmd; destruct u as [v|]; simpl;
    rewrite ?orb_false_r, ?bool_decide_eq_true;
    split; (congruence || discriminate).
Qed.

Lemma select_permitted_iff u row :
  select_permitted (Role u) row = true <-> u = Some (id row).
Proof. by apply using_passes_iff. Qed.

Lemma insert_permitted_iff u row :
  insert_permitted (Role u) row = true <-> u = Some (id row).
Proof. by apply check_passes_iff. Qed.

Lemma update_locates_iff u row :
  update_locates (Role u) row = true <-> u = Some (id row).
Proof.
  unfold update_locates.
  rewrite andb_true_iff, !using_passes_iff by done. tauto.
Qed.

Lemma update_result_permitted_iff u new :
  update_result_permitted (Role u) new = true <-> u = Some (id new).
Proof.
  unfold update_result_permitted.
  rewrite andb_true_iff, !check_passes_iff. tauto.
Qed.

Lemma update_permitted_iff u old new :
  update_permitted (Role u) old new = true
  <-> u = Some (id old) /\ u = Some (id new).
Proof.
  unfold update_permitted.
  by rewrite andb_true_iff, update_locates_iff,
             update_result_permitted_iff.
Qed.

Lemma delete_permitted_iff u row :
  delete_permitted (Role u) row = true <-> u = Some (id row).
Proof.
  unfold delete_permitted.
  rewrite andb_true_iff, !using_passes_iff by done. tauto.
Qed.

Lemma anonymous_sees_nothing (db : Db) : visible_rows (Role None) db = [].
Proof.
  unfold visible_rows. induction (profiles db) as [|r rows IH]; [done |].
  simpl. destruct (using_passes ForSelect None r) eqn:E; [| done].
  apply using_passes_iff in E; [discriminate | done].
Qed.

Lemma elem_of_insert_sorted le x y (l : list Profile) :
  y ∈ insert_sorted le x l -> y = x \/ y ∈ l.
Proof.
  induction l as [|z t IH]; simpl.
  - intros Hy. left. by apply list_elem_of_singleton in Hy.
  - destruct (le x z).
    + intros Hy. apply elem_of_cons in Hy. tauto.
    + intros Hy. apply elem_of_cons in Hy as [-> | Hy].
      * right. by left.
      * destruct (IH Hy) as [-> | Ht]; [by left |]. right. by right.
Qed.

Lemma elem_of_sort_by le y (l : list Profile) : y ∈ sort_by le l -> y ∈ l.
Proof.
  unfold sort_by. induction l as [|x t IH]; simpl; [done |].
  intros Hy. apply elem_of_insert_sorted in Hy as [-> | Hy].
  - by left.
  - right. by apply IH.
Qed.

(** Whatever the shape of the query, the rows it returns are rows the
    SELECT policy admits. *)
Lemma run_select_visible c q db r :
  r ∈ run_select c q db -> r ∈ profiles db /\ select_permitted c r = true.
Proof.
  unfold run_select, visible_rows. intros Hr.
  assert (Hm : r ∈ List.filter (q_where q)
                     (List.filter (select_permitted c) (profiles db))).
  { destruct (q_limit q) as [n|], (q_order q) as [le|];
      try (apply subseteq_take in Hr);
      try (apply elem_of_sort_by in Hr); done. }
  apply list_elem_of_In, filter_In in Hm as [Hm _].
  apply filter_In in Hm as [Hm Hp]. by rewrite list_elem_of_In.
Qed.

Lemma update_rows_hidden c wh st now (done rows : list Profile) :
  (forall r, r ∈ rows -> update_locates c r = false) ->
  update_rows c wh st now done rows = Ok (done ++ rows, []).
Proof.
  revert done. induction rows as [|r rest IH]; intros done Hhid; simpl.
  - by rewrite app_nil_r.
  - rewrite (Hhid r) by by left. simpl.
    rewrite IH by (intros; apply Hhid; by right).
    by rewrite <- app_assoc.
Qed.

Lemma with_profiles_same (db : Db) : with_profiles db (profiles db) = db.
Proof. by destruct db. Qed.

Lemma anonymous_locates_nothing (r : Profile) :
  update_locates (Role None) r = false.
Proof.
  destruct (update_locates (Role None) r) eqn:E; [| done].
  by apply update_locates_iff in E.
Qed.

Lemma anonymous_deletes_nothing (r : Profile) :
  delete_permitted (Role None) r = false.
Proof.
  destruct (delete_permitted (Role None) r) eqn:E; [| done].
  by apply delete_permitted_iff in E.
Qed.

Lemma filter_all_true {A} (f : A -> bool) (l : list A) :
  (forall x, f x = true) -> List.filter f l = l.
Proof.
  intros Hf. induction l as [|x t IH]; simpl; [done |].
  by rewrite Hf, IH.
Qed.

Lemma filter_all_false_in {A} (f : A -> bool) (l : list A) :
  (forall x, x ∈ l -> f x = false) -> List.filter f l = [].
Proof.
  intros Hf. induction l as [|x t IH]; simpl; [done |].
  rewrite Hf by by left. apply IH. intros y Hy. apply Hf. by right.
Qed.

Lemma filter_all_false {A} (f : A -> bool) (l : list A) :
  (forall x, f x = false) -> List.filter f l = [].
Proof. intros Hf. apply filter_all_false_in. auto. Qed.

(** C1. For every caller and every row, select, insert, update and
    delete are permitted exactly when the caller's authenticated
    identity equals the row's id (for update: for the row located and
    for the resulting row); whatever the query, a caller is returned
    only rows it owns, and a caller with no identity reads no row,
    inserts none, updates none and deletes none. *)
Theorem rls_owner_only (u : option uuid) (row new : Profile) :
  (select_permitted (Role u) row = true <-> u = Some (id row))
  /\ (insert_permitted (Role u) row = true <-> u = Some (id row))
  /\ (update_permitted (Role u) row new = true
      <-> u = Some (id row) /\ u = Some (id new))
  /\ (delete_permitted (Role u) row = true <-> u = Some (id row))
  /\ (forall q db r, r ∈ run_select (Role u) q db -> u = Some (id r))
  /\ (forall q db, run_select (Role None) q db = [])
  /\ (forall r rest db,
        run_insert (Role None) r db = Err insufficient_privilege
        /\ run_insert_many (Role None) (r :: rest) db
           = Err insufficient_privilege)
  /\ (forall wh st now db,
        run_update (Role None) wh st now db = Ok (db, []))
  /\ (forall wh db, run_delete (Role None) wh db = (db, [])).
Proof.
  split; [apply select_permitted_iff |].
  split; [apply insert_permitted_iff |].
  split; [apply update_permitted_iff |].
  split; [apply delete_permitted_iff |].
  split.
  { intros q db r Hr. apply run_select_visible in Hr as [_ Hr].
    by apply select_permitted_iff. }
  split.
  { intros q db. unfold run_select. rewrite anonymous_sees_nothing.
    simpl. destruct (q_order q), (q_limit q) as [[|n]|]; done. }
  split.
  { intros r rest db.
    assert (Hi : run_insert (Role None) r db = Err insufficient_privilege).
    { unfold run_insert.
      destruct (insert_permitted (Role None) r) eqn:E; [| done].
      by apply insert_permitted_iff in E. }
    split; [done |]. cbn [run_insert_many]. by rewrite Hi. }
  split.
  { intros wh st now db. unfold run_update.
    rewrite update_rows_hidden
      by (intros; apply anonymous_locates_nothing).
    simpl. by rewrite with_profiles_same. }
  intros wh db. unfold run_delete.
  rewrite filter_all_true, filter_all_false, with_profiles_same; [done | |];
    intros r; by rewrite anonymous_deletes_nothing.
Qed.

End PolicyFacts.

(** ** Triggers *)

Module TriggerFacts.
Import JsString Store.

Lemma arrow_text_meta (new : Auth.users) :
  arrow_text (Auth.raw_user_meta_data new) (js "full_name")
  = meta_full_name new ≫= json_as_text.
Proof.
  unfold arrow_text, meta_full_name.
  destruct (Auth.raw_user_meta_data new) as [o|]; simpl; [| done].
  by destruct (o !! js "full_name").
Qed.

Lemma handle_new_user_eq new now db :
  handle_new_user new now db
  = if id_taken (Auth.id new) (profiles db) then Err unique_violation
    else Ok (new, with_profiles db (profiles db ++ [provisioned_row new now])).
Proof.
  unfold handle_new_user, run_insert, provisioned_row. simpl.
  rewrite arrow_text_meta.
  by destruct (id_taken (Auth.id new) (profiles db)).
Qed.

Lemma insert_auth_users_eq new now db :
  insert_auth_users new now db
  = if user_exists (Auth.id new) (auth_users db) then Err unique_violation
    else if id_taken (Auth.id new) (profiles db) then Err unique_violation
    else Ok {| auth_users := auth_users db ++ [new];
               profiles := profiles db ++ [provisioned_row new now] |}.
Proof.
  unfold insert_auth_users, on_auth_user_created.
  rewrite handle_new_user_eq. simpl.
  destruct (user_exists _ _); [done |].
  by destruct (id_taken _ _).
Qed.

Lemma insert_auth_users_ok new now db db' :
  insert_auth_users new now db = Ok db' ->
  user_exists (Auth.id new) (auth_users db) = false
  /\ id_taken (Auth.id new) (profiles db) = false
  /\ db' = {| auth_users := auth_users db ++ [new];
              profiles := profiles db ++ [provisioned_row new now] |}.
Proof.
  rewrite insert_auth_users_eq.
  destruct (user_exists _ _); [discriminate |].
  destruct (id_taken _ _); [discriminate |].
  by intros [= <-].
Qed.

(** C2. For every newly created identity, the provisioning trigger
    inserts exactly one profile row: its id and email are the
    identity's, its full_name is the metadata's full_name when there
    is one and the empty string when there is none, and its avatar_url
    is null. *)
Theorem provisioning_inserts_one_row new now db db' :
  insert_auth_users new now db = Ok db' ->
  exists p,
    profiles db' = profiles db ++ [p]
    /\ id p = Auth.id new
    /\ email p = Auth.email new
    /\ (forall s, meta_full_name new = Some (JString s) ->
                  full_name p = Some s)
    /\ (meta_full_name new = None -> full_name p = Some (js ""))
    /\ (meta_full_name new = Some JNull -> full_name p = Some (js ""))
    /\ avatar_url p = None.
Proof.
  intros Hok. apply insert_auth_users_ok in Hok as (_ & _ & ->).
  exists (provisioned_row new now). simpl.
  repeat split; by intros; simplify_option_eq.
Qed.

Example provision_ann :
  insert_auth_users ann 100 empty_db
  = Ok {| auth_users := [ann];
          profiles := [ {| id := "U1"; email := js "a@x.com";
                           full_name := Some (js "Ann");
                           avatar_url := None;
                           created_at := 100; updated_at := 100 |} ] |}.
Proof. vm_compute. reflexivity. Qed.

Example provision_bob_without_metadata :
  profiles (create_identity bob 7 empty_db)
  = [ {| id := "U2"; email := js "b@x.com"; full_name := Some (js "");
         avatar_url := None; created_at := 7; updated_at := 7 |} ].
Proof. vm_compute. reflexivity. Qed.

Lemma provisioning_inserts_one_row_witness :
  exists p,
    profiles (create_identity ann 100 empty_db) = profiles empty_db ++ [p]
    /\ id p = "U1"
    /\ email p = js "a@x.com"
    /\ (forall s, meta_full_name ann = Some (JString s) ->
                  full_name p = Some s)
    /\ (meta_full_name ann = None -> full_name p = Some (js ""))
    /\ (meta_full_name ann = Some JNull -> full_name p = Some (js ""))
    /\ avatar_url p = None.
Proof.
  apply (provisioning_inserts_one_row ann 100 empty_db).
  vm_compute. reflexivity.
Defined.

Lemma update_rows_ok c wh st now (rows : list Profile) :
  forall done final ret,
  update_rows c wh st now done rows = Ok (final, ret) ->
  final = done ++ map (rewritten c wh st now) rows
  /\ ret = map (updated_row st now)
               (List.filter (fun r => update_locates c r && wh r) rows).
Proof.
  induction rows as [|r rest IH]; intros done final ret; simpl.
  - intros [= <- <-]. by rewrite app_nil_r.
  - unfold rewritten at 1.
    destruct (update_locates c r && wh r).
    + destruct (update_result_permitted c _); [| discriminate].
      destruct (id_taken _ _); [discriminate |].
      destruct (update_rows c wh st now _ rest) as [[f' r']|] eqn:E;
        [| discriminate].
      simpl. intros [= <- <-].
      destruct (IH _ _ _ E) as [-> ->].
      by rewrite <- app_assoc.
    + intros E. destruct (IH _ _ _ E) as [-> ->].
      by rewrite <- app_assoc.
Qed.

Lemma updated_row_updated_at st now r :
  updated_at (updated_row st now r) = now.
Proof. reflexivity. Qed.

(** C3. For every update of a profile row, whatever the SET list (an
    empty one, or one that assigns updated_at), the row written is the
    one the timestamp trigger returned, whose updated_at is the current
    server time. *)
Theorem update_stamps_updated_at c wh st now db db' ret :
  run_update c wh st now db = Ok (db', ret) ->
  profiles db' = map (rewritten c wh st now) (profiles db)
  /\ (forall r, r ∈ profiles db -> update_locates c r && wh r = true ->
                updated_row st now r ∈ profiles db'
                /\ updated_at (updated_row st now r) = now)
  /\ (forall r', r' ∈ ret -> updated_at r' = now).
Proof.
  unfold run_update. intros Hrun.
  destruct (update_rows c wh st now [] (profiles db)) as [[rows rt]|] eqn:E;
    [| discriminate].
  simpl in Hrun. injection Hrun as <- <-.
  apply update_rows_ok in E as [-> ->]. simpl.
  split; [done |]. split.
  - intros r Hr Ht. split; [| done].
    apply list_elem_of_fmap. exists r. split; [| done].
    unfold rewritten. by rewrite Ht.
  - intros r' Hr'. apply list_elem_of_fmap in Hr' as (r & -> & _). done.
Qed.

Example update_ignores_supplied_updated_at :
  run_update (Role (Some "U1")) (fun _ => true)
    {| set_id := None; set_email := None; set_full_name := None;
       set_avatar_url := None; set_created_at := None;
       set_updated_at := Some 5 |}
    200 (create_identity ann 100 empty_db)
  = Ok ({| auth_users := [ann];
           profiles := [ {| id := "U1"; email := js "a@x.com";
                            full_name := Some (js "Ann");
                            avatar_url := None;
                            created_at := 100; updated_at := 200 |} ] |},
        [ {| id := "U1"; email := js "a@x.com";
             full_name := Some (js "Ann"); avatar_url := None;
             created_at := 100; updated_at := 200 |} ]).
Proof. vm_compute. reflexivity. Qed.

Lemma update_stamps_updated_at_witness :
  let db := create_identity ann 100 empty_db in
  let st := {| set_id := None; set_email := None; set_full_name := None;
               set_avatar_url := None; set_created_at := None;
               set_updated_at := Some 5 |} in
  let c := Role (Some "U1") in
  let wh := fun _ : Profile => true in
  exists db' ret,
    run_update c wh st 200 db = Ok (db', ret)
    /\ profiles db' = map (rewritten c wh st 200) (profiles db)
    /\ (forall r, r ∈ profiles db -> update_locates c r && wh r = true ->
                  updated_row st 200 r ∈ profiles db'
                  /\ updated_at (updated_row st 200 r) = 200)
    /\ (forall r', r' ∈ ret -> updated_at r' = 200).
Proof.
  intros db st c wh.
  destruct (run_update c wh st 200 db) as [[db' ret]|] eqn:E;
    [| vm_compute in E; discriminate].
  exists db', ret. split; [reflexivity |].
  exact (update_stamps_updated_at c wh st 200 db db' ret E).
Defined.

(** A no-op update (empty SET list) still re-stamps the row. *)
Lemma noop_update_restamps now r :
  updated_row set_nothing now r
  = {| id := id r; email := email r; full_name := full_name r;
       avatar_url := avatar_url r; created_at := created_at r;
       updated_at := now |}.
Proof. reflexivity. Qed.

Lemma id_taken_app i (l1 l2 : list Profile) :
  id_taken i (l1 ++ l2) = id_taken i l1 || id_taken i l2.
Proof. unfold id_taken. apply existsb_app. Qed.

Lemma user_exists_true i (us : list Auth.users) :
  user_exists i us = true <-> exists u, u ∈ us /\ Auth.id u = i.
Proof.
  unfold user_exists. rewrite existsb_exists. split.
  - intros (u & Hu & He). exists u. rewrite list_elem_of_In.
    by rewrite bool_decide_eq_true in He.
  - intros (u & Hu & He). exists u. rewrite <- list_elem_of_In.
    by rewrite bool_decide_eq_true.
Qed.

(** C6. Provisioning is atomic with identity creation: when the
    trigger's insert fails, the INSERT into auth.users fails with it and
    the state that persists is the one before the creation (the
    identity is not there); in particular a duplicate profile id makes
    the creation fail; and a creation never leaves an identity without
    a profile row. *)
Theorem provisioning_atomic new now db :
  (forall e,
     on_auth_user_created new now
       {| auth_users := auth_users db ++ [new]; profiles := profiles db |}
     = Err e ->
     (exists e', insert_auth_users new now db = Err e')
     /\ create_identity new now db = db)
  /\ (id_taken (Auth.id new) (profiles db) = true ->
      insert_auth_users new now db = Err unique_violation
      /\ create_identity new now db = db)
  /\ (identities_have_profiles db ->
      identities_have_profiles (create_identity new now db)).
Proof.
  split; [| split].
  - intros e He. unfold create_identity, insert_auth_users.
    destruct (user_exists _ _).
    + split; [by eexists | done].
    + rewrite He. split; [by eexists | done].
  - intros Ht. unfold create_identity.
    rewrite insert_auth_users_eq, Ht.
    by destruct (user_exists _ _).
  - intros Hinv. unfold create_identity.
    rewrite insert_auth_users_eq.
    destruct (user_exists _ _); [done |].
    destruct (id_taken _ _) eqn:Ht; [done |].
    intros u Hu. simpl in *. rewrite id_taken_app.
    apply elem_of_app in Hu as [Hu | Hu].
    + by rewrite (Hinv u Hu).
    + apply list_elem_of_singleton in Hu as ->.
      apply orb_true_iff. right. simpl.
      by rewrite bool_decide_eq_true_2.
Qed.

Lemma provisioning_atomic_witness :
  (insert_auth_users bob 60 stray_profile_db = Err unique_violation
   /\ create_identity bob 60 stray_profile_db = stray_profile_db)
  /\ identities_have_profiles (create_identity bob 60 stray_profile_db)
  /\ identities_have_profiles (create_identity bob 60 empty_db).
Proof.
  destruct (provisioning_atomic bob 60 stray_profile_db)
    as (_ & Hdup & Hinv).
  destruct (provisioning_atomic bob 60 empty_db) as (_ & _ & Hinv0).
  split; [apply Hdup; reflexivity |]. split.
  - apply Hinv. intros u Hu.
    apply list_elem_of_singleton in Hu as ->. reflexivity.
  - apply Hinv0. intros u Hu. by apply elem_of_nil in Hu.
Defined.

End TriggerFacts.

(** ** The profile access functions *)

Module AccessFacts.
Import JsString ProfileUtils Store Access PolicyFacts TriggerFacts.

Lemma id_taken_true i (rows : list Profile) :
  id_taken i rows = true <-> i ∈ map id rows.
Proof.
  unfold id_taken. rewrite existsb_exists, list_elem_of_fmap. split.
  - intros (r & Hr & He). exists r.
    rewrite bool_decide_eq_true in He. by rewrite list_elem_of_In.
  - intros (r & -> & Hr). exists r.
    rewrite bool_decide_eq_true. by rewrite <- list_elem_of_In.
Qed.

Lemma id_taken_false i (rows : list Profile) :
  id_taken i rows = false <-> i ∉ map id rows.
Proof.
  rewrite <- id_taken_true. by destruct (id_taken i rows).
Qed.

Lemma ids_unique_NoDup (rows : list Profile) :
  ids_unique rows = true <-> NoDup (map id rows).
Proof.
  induction rows as [|r rest IH]; simpl.
  - split; [constructor | done].
  - rewrite andb_true_iff, negb_true_iff, id_taken_false, IH, NoDup_cons.
    done.
Qed.

Lemma NoDup_ids_inj (rows : list Profile) r p :
  NoDup (map id rows) -> r ∈ rows -> p ∈ rows -> id r = id p -> r = p.
Proof.
  induction rows as [|x rest IH]; simpl; intros Hnd Hr Hp He.
  - by apply elem_of_nil in Hr.
  - apply NoDup_cons in Hnd as [Hx Hnd].
    apply elem_of_cons in Hr as [-> | Hr];
      apply elem_of_cons in Hp as [-> | Hp]; [done | | | by apply IH].
    + exfalso. apply Hx. rewrite He. by apply list_elem_of_fmap_2.
    + exfalso. apply Hx. rewrite <- He. by apply list_elem_of_fmap_2.
Qed.

Section OwnerUpdate.
Variables (uid : uuid) (st : SetClause) (now : timestamp).
Hypothesis Hid : set_id st = None.

Let c := Role (Some uid).
Let wh := fun r : Profile => bool_decide (id r = uid).

Lemma updated_row_id r : id (updated_row st now r) = id r.
Proof. simpl. by rewrite Hid. Qed.

Lemma rewritten_id r : id (rewritten c wh st now r) = id r.
Proof.
  unfold rewritten. destruct (_ && _); [apply updated_row_id | done].
Qed.

Lemma touched_iff r : update_locates c r && wh r = true <-> id r = uid.
Proof.
  unfold c, wh.
  rewrite andb_true_iff, update_locates_iff, bool_decide_eq_true.
  split; [tauto | intros <-; done].
Qed.

Lemma update_rows_owner (rows : list Profile) :
  forall done,
  NoDup (map id (done ++ rows)) ->
  update_rows c wh st now done rows
  = Ok (done ++ map (rewritten c wh st now) rows,
        map (updated_row st now)
            (List.filter (fun r => update_locates c r && wh r) rows)).
Proof.
  induction rows as [|r rest IH]; intros done Hnd;
    cbn [update_rows map List.filter].
  - by rewrite app_nil_r.
  - assert (Hnd' : forall x, id x = id r ->
                     NoDup (map id ((done ++ [x]) ++ rest))).
    { intros x Hx. rewrite <- app_assoc. simpl.
      rewrite !fmap_app in *. simpl in *. by rewrite Hx. }
    unfold rewritten at 1.
    destruct (update_locates c r && wh r) eqn:Ht.
    + apply touched_iff in Ht.
      assert (Hperm : update_result_permitted c (updated_row st now r)
                      = true).
      { apply update_result_permitted_iff.
        by rewrite updated_row_id, Ht. }
      rewrite Hperm, updated_row_id.
      assert (Hfree : id_taken (id r) (done ++ rest) = false).
      { apply id_taken_false. rewrite fmap_app in *. simpl in Hnd.
        apply NoDup_app in Hnd as (Hd & Hdr & Hr).
        apply NoDup_cons in Hr as [Hr _].
        intros Hin. apply elem_of_app in Hin as [Hin | Hin]; [| done].
        apply (Hdr _ Hin). by left. }
      rewrite Hfree, IH by (apply Hnd', updated_row_id).
      simpl. by rewrite <- app_assoc.
    + rewrite IH by by apply Hnd'.
      by rewrite <- app_assoc.
Qed.

Lemma filter_own_row (rows : list Profile) p :
  NoDup (map id rows) -> p ∈ rows -> id p = uid ->
  List.filter (fun r => update_locates c r && wh r) rows = [p].
Proof.
  intros Hnd Hp Hi. induction rows as [|r rest IH]; cbn [List.filter].
  - by apply elem_of_nil in Hp.
  - cbn [map] in Hnd. apply NoDup_cons in Hnd as [Hr Hnd].
    assert (Hrest : id r = uid ->
              List.filter (fun r => update_locates c r && wh r) rest = []).
    { intros He. apply filter_all_false_in. intros x Hx.
      destruct (update_locates c x && wh x) eqn:Ht; [| done].
      apply touched_iff in Ht. exfalso. apply Hr.
      rewrite He, <- Ht. by apply list_elem_of_fmap_2. }
    apply elem_of_cons in Hp as [<- | Hp].
    + rewrite (proj2 (touched_iff p) Hi). by rewrite Hrest.
    + destruct (update_locates c r && wh r) eqn:Ht.
      * apply touched_iff in Ht. exfalso. apply Hr.
        rewrite Ht, <- Hi. by apply list_elem_of_fmap_2.
      * by apply IH.
Qed.

Lemma rewritten_own_row (rows : list Profile) p :
  NoDup (map id rows) -> p ∈ rows -> id p = uid ->
  map (rewritten c wh st now) rows
  = map (fun r => if bool_decide (id r = uid)
                  then updated_row st now p else r) rows.
Proof.
  intros Hnd Hp Hi. apply map_ext_in. intros r Hr.
  apply list_elem_of_In in Hr. unfold rewritten.
  destruct (bool_decide (id r = uid)) eqn:E.
  - apply bool_decide_eq_true in E.
    rewrite (proj2 (touched_iff r) E). f_equal.
    apply (NoDup_ids_inj rows); congruence.
  - destruct (update_locates c r && wh r) eqn:Ht; [| done].
    apply touched_iff in Ht. apply bool_decide_eq_false in E. done.
Qed.

End OwnerUpdate.

Lemma updateProfile_owner uid updates now db p :
  ids_unique (profiles db) = true -> p ∈ profiles db -> id p = uid ->
  let p' := updated_row (to_set_clause updates) now p in
  updateProfile (Some uid) updates now db
  = ({| upd_data := Some p'; upd_error := None |},
     with_profiles db
       (map (fun r => if bool_decide (id r = uid) then p' else r)
            (profiles db))).
Proof.
  intros Hu Hp Hi p'. apply ids_unique_NoDup in Hu.
  unfold updateProfile, run_update.
  rewrite (update_rows_owner uid (to_set_clause updates) now eq_refl
             (profiles db) []) by done.
  cbn [mbind Result_bind app].
  rewrite (filter_own_row uid (profiles db) p) by done.
  rewrite (rewritten_own_row uid (to_set_clause updates) now
             (profiles db) p) by done.
  reflexivity.
Qed.

(** C4. For every call to updateProfile by the owning identity, the
    row is rewritten in its full_name and avatar_url only: id, email and
    created_at are those of the row before, the other rows are left as
    they were, and updated_at is the server time of the update,
    whatever updated_at the caller supplied. *)
Theorem updateProfile_writes_editable_fields uid updates now db p :
  ids_unique (profiles db) = true -> p ∈ profiles db -> id p = uid ->
  exists p',
    updateProfile (Some uid) updates now db
    = ({| upd_data := Some p'; upd_error := None |},
       with_profiles db
         (map (fun r => if bool_decide (id r = uid) then p' else r)
              (profiles db)))
    /\ id p' = id p
    /\ email p' = email p
    /\ created_at p' = created_at p
    /\ full_name p' = match u_full_name updates with
                      | Some s => Some s
                      | None => full_name p
                      end
    /\ avatar_url p' = match u_avatar_url updates with
                       | Some s => Some s
                       | None => avatar_url p
                       end
    /\ updated_at p' = now.
Proof.
  intros Hu Hp Hi.
  exists (updated_row (to_set_clause updates) now p).
  split; [by apply updateProfile_owner |].
  simpl. repeat split.
  - by destruct (u_full_name updates).
  - by destruct (u_avatar_url updates).
Qed.

Example update_avatar :
  updateProfile (Some "U1")
    {| u_full_name := None; u_avatar_url := Some (js "https://cdn/x.png");
       u_updated_at := Some 1 |} 250 ann_db
  = ({| upd_data :=
          Some {| id := "U1"; email := js "a@x.com";
                  full_name := Some (js "Ann");
                  avatar_url := Some (js "https://cdn/x.png");
                  created_at := 100; updated_at := 250 |};
        upd_error := None |},
     {| auth_users := [ann];
        profiles := [ {| id := "U1"; email := js "a@x.com";
                         full_name := Some (js "Ann");
                         avatar_url := Some (js "https://cdn/x.png");
                         created_at := 100; updated_at := 250 |} ] |}).
Proof. vm_compute. reflexivity. Qed.

Example update_by_stranger :
  updateProfile (Some "U2")
    {| u_full_name := Some (js "Eve"); u_avatar_url := None;
       u_updated_at := None |} 250 ann_db
  = ({| upd_data := None; upd_error := Some (RequestFailed PGRST116) |},
     ann_db).
Proof. vm_compute. reflexivity. Qed.

Lemma updateProfile_writes_editable_fields_witness :
  let updates := {| u_full_name := None;
                    u_avatar_url := Some (js "https://cdn/x.png");
                    u_updated_at := Some 1 |} in
  let p := provisioned_row ann 100 in
  exists p',
    updateProfile (Some "U1") updates 250 ann_db
    = ({| upd_data := Some p'; upd_error := None |},
       with_profiles ann_db
         (map (fun r => if bool_decide (id r = "U1") then p' else r)
              (profiles ann_db)))
    /\ id p' = id p
    /\ email p' = email p
    /\ created_at p' = created_at p
    /\ full_name p' = full_name p
    /\ avatar_url p' = Some (js "https://cdn/x.png")
    /\ updated_at p' = 250.
Proof.
  intros updates p.
  apply (updateProfile_writes_editable_fields "U1" updates 250 ann_db p).
  - reflexivity.
  - vm_compute. left.
  - reflexivity.
Defined.

(** The form path: what [handleSubmit] writes are the two trimmed form
    fields. *)
Lemma handleSubmit_owner uid formData now db p :
  ids_unique (profiles db) = true -> p ∈ profiles db -> id p = uid ->
  exists p',
    (handleSubmit (Some uid) formData now db).1
    = {| upd_data := Some p'; upd_error := None |}
    /\ p' = {| id := id p; email := email p;
               full_name := Some (trim (fd_full_name formData));
               avatar_url := Some (trim (fd_avatar_url formData));
               created_at := created_at p; updated_at := now |}.
Proof.
  intros Hu Hp Hi. unfold handleSubmit.
  rewrite (updateProfile_owner uid _ now db p) by done.
  eexists. split; reflexivity.
Qed.

Lemma run_select_eq_id session userId db :
  run_select (Role session) (eq_id userId) db
  = List.filter (fun r => bool_decide (id r = userId))
      (List.filter (select_permitted (Role session)) (profiles db)).
Proof. reflexivity. Qed.

(** C5. getProfile answers not-found when no row has the id asked for,
    and it answers not-found when the caller is not the owner of that
    id, whether the row exists or not: the request fails the same way
    (PGRST116) and the result is null in both cases. *)
Theorem getProfile_not_found session userId db :
  ((forall r, r ∈ profiles db -> id r <> userId) ->
   getProfile_response session userId db = not_found
   /\ getProfile session userId db = None)
  /\ (session <> Some userId ->
      getProfile_response session userId db = not_found
      /\ getProfile session userId db = None).
Proof.
  assert (Hempty : run_select (Role session) (eq_id userId) db = [] ->
                   getProfile_response session userId db = not_found
                   /\ getProfile session userId db = None).
  { intros He. unfold getProfile, getProfile_response. by rewrite He. }
  split; intros Hc; apply Hempty; rewrite run_select_eq_id;
    apply filter_all_false_in; intros r Hr;
    apply list_elem_of_In, filter_In in Hr as [Hr Hs];
    apply list_elem_of_In in Hr;
    apply bool_decide_eq_false; intros He.
  - by apply (Hc r).
  - apply select_permitted_iff in Hs. congruence.
Qed.

Example stranger_fetch : getProfile (Some "U2") "U1" ann_db = None.
Proof. vm_compute. reflexivity. Qed.

Example owner_fetch :
  getProfile (Some "U1") "U1" ann_db = Some (provisioned_row ann 100).
Proof. vm_compute. reflexivity. Qed.

Lemma getProfile_not_found_witness :
  (getProfile_response (Some "U2") "U2" ann_db = not_found
   /\ getProfile (Some "U2") "U2" ann_db = None)
  /\ (getProfile_response (Some "U2") "U1" ann_db = not_found
      /\ getProfile (Some "U2") "U1" ann_db = None)
  /\ (exists p, p ∈ profiles ann_db /\ id p = "U1").
Proof.
  destruct (getProfile_not_found (Some "U2") "U2" ann_db) as [Habsent _].
  destruct (getProfile_not_found (Some "U2") "U1" ann_db) as [_ Hdenied].
  split; [| split].
  - apply Habsent. intros r Hr.
    apply list_elem_of_singleton in Hr as ->. discriminate.
  - apply Hdenied. discriminate.
  - exists (provisioned_row ann 100). split; [left | reflexivity].
Defined.

End AccessFacts.



(** ** Life of the store *)

Module LifecycleFacts.
Import JsString Store Access Lifecycle PolicyFacts TriggerFacts AccessFacts.







(** An UPDATE that succeeds has passed the check on each row it
    rewrote. *)
Lemma update_rows_checked c wh st now (rows : list Profile) :
  forall done final ret,
  update_rows c wh st now done rows = Ok (final, ret) ->
  forall r, r ∈ rows -> update_locates c r && wh r = true ->
            update_result_permitted c (updated_row st now r) = true.
Proof.
  induction rows as [|x rest IH]; intros done final ret;
    cbn [update_rows]; intros Hrun r Hr Ht.
  - by apply elem_of_nil in Hr.
  - destruct (update_locates c x && wh x) eqn:Hx.
    + destruct (update_result_permitted c (updated_row st now x)) eqn:Hperm;
        [| discriminate].
      destruct (id_taken _ _); [discriminate |].
      destruct (update_rows c wh st now _ rest) as [[f' r']|] eqn:E;
        [| discriminate].
      apply elem_of_cons in Hr as [-> | Hr]; [done |].
      by apply (IH _ _ _ E).
    + apply elem_of_cons in Hr as [-> | Hr]; [congruence |].
      by apply (IH _ _ _ Hrun).
Qed.

(** Under a role, the rows an UPDATE rewrites are the caller's own, and
    they keep their id. *)
Lemma role_update_rows u wh st now db db' ret :
  run_update (Role u) wh st now db = Ok (db', ret) ->
  profiles db' = map (rewritten (Role u) wh st now) (profiles db)
  /\ ret = map (updated_row st now)
               (List.filter (fun r => update_locates (Role u) r && wh r)
                            (profiles db))
  /\ forall r, r ∈ profiles db -> update_locates (Role u) r && wh r = true ->
               u = Some (id r) /\ id (updated_row st now r) = id r.
Proof.
  unfold run_update. intros Hrun.
  destruct (update_rows (Role u) wh st now [] (profiles db))
    as [[rows rt]|] eqn:E; [| discriminate].
  cbn in Hrun. injection Hrun as <- <-.
  pose proof (update_rows_checked _ _ _ _ _ _ _ _ E) as Hchk.
  apply update_rows_ok in E as [-> ->]. cbn [app with_profiles profiles].
  split; [done |]. split; [done |].
  intros r Hr Ht. specialize (Hchk r Hr Ht).
  apply update_result_permitted_iff in Hchk.
  apply andb_true_iff in Ht as [Hl _]. apply update_locates_iff in Hl.
  split; congruence.
Qed.








Example sample_run :
  profiles (run sample_trace empty_db)
  = [ {| id := "U1"; email := js "a@x.com"; full_name := Some (js "Ann");
         avatar_url := Some (js "https://cdn/x.png");
         created_at := 100; updated_at := 300 |} ].
Proof. vm_compute. reflexivity. Qed.



End LifecycleFacts.

(** ** The setup scripts *)

Module CatalogFacts.
Import Store Catalog.

Lemma exec_script_cons st rest c :
  exec_script (st :: rest) c
  = match exec st c with
    | inr c' => exec_script rest c'
    | inl e => inl e
    end.
Proof. reflexivity. Qed.

Lemma with_functions_same c : with_functions c (functions c) = c.
Proof. by destruct c. Qed.

Lemma drop_function_ok f c c' :
  exec (DropFunctionIfExists f) c = inr c'
  <-> (functions c !! f = None \/ unused_function f (triggers c))
      /\ c' = with_functions c (delete f (functions c)).
Proof.
  unfold exec. destruct (functions c !! f) as [d|] eqn:E.
  - case_decide as Hu.
    + split; [intros [= <-]; auto | intros [_ ->]; done].
    + split; [done | intros [[?|?] _]; done].
  - rewrite delete_id, with_functions_same by done.
    split; [intros [= <-]; auto | intros [_ ->]; done].
Qed.

Lemma create_trigger_ok n t d c c' :
  exec (CreateTrigger n t d) c = inr c'
  <-> t ∈ tables c
      /\ is_Some (functions c !! trg_function d)
      /\ triggers c !! (t, n) = None
      /\ c' = with_triggers c (<[(t, n) := d]> (triggers c)).
Proof.
  unfold exec. case_decide as Ht.
  - destruct (functions c !! trg_function d) as [fd|] eqn:Ef.
    + destruct (triggers c !! (t, n)) as [td|] eqn:Et.
      * split; [done | intros (_ & _ & ? & _); done].
      * split; [intros [= <-]; eauto | intros (_ & _ & _ & ->); done].
    + split; [done | intros (_ & [? ?] & _); done].
  - split; [done | intros (? & _); done].
Qed.

Lemma enable_rls_ok t c c' :
  exec (EnableRowLevelSecurity t) c = inr c'
  <-> t ∈ tables c /\ c' = with_rls c ({[t]} ∪ rls_enabled c).
Proof.
  unfold exec. case_decide as Ht.
  - split; [intros [= <-]; auto | intros [_ ->]; done].
  - split; [done | intros [? _]; done].
Qed.

Lemma create_policy_ok p c c' :
  exec (CreatePolicy p) c = inr c'
  <-> pol_table p ∈ tables c
      /\ policies c !! policy_key p = None
      /\ c' = with_policies c (<[policy_key p := p]> (policies c)).
Proof.
  unfold exec, policy_key. case_decide as Ht.
  - destruct (policies c !! (pol_table p, pol_name p)) as [q|] eqn:Ep.
    + split; [done | intros (_ & ? & _); done].
    + split; [intros [= <-]; auto | intros (_ & _ & ->); done].
  - split; [done | intros (? & _); done].
Qed.

Ltac step_in H lem :=
  rewrite exec_script_cons in H;
  let E := fresh "E" in
  match type of H with
  | context [exec ?st ?c] =>
      destruct (exec st c) as [?|?] eqn:E; [discriminate H |];
      apply lem in E
  end.

Ltac norm :=
  cbn [with_rls with_functions with_triggers with_policies
       tables rls_enabled functions triggers policies] in *.

Ltac step_plain H :=
  rewrite exec_script_cons in H; cbn [exec] in H; norm.

Lemma setup_ok c c1 :
  exec_script setup c = inr c1 -> ready c /\ c1 = installed c.
Proof.
  unfold setup, add_functions, enable_rls_policies, profiles_policies.
  cbn [app map]. intros H.
  step_plain H. step_plain H.
  step_in H drop_function_ok. destruct E as [Hd1 ->]; norm.
  step_in H drop_function_ok. destruct E as [Hd2 ->]; norm.
  step_plain H. step_plain H.
  step_in H create_trigger_ok. destruct E as (Ht1 & _ & _ & ->); norm.
  step_in H create_trigger_ok. destruct E as (Ht2 & _ & _ & ->); norm.
  do 4 step_plain H.
  step_in H enable_rls_ok. destruct E as (_ & ->); norm.
  step_in H create_policy_ok. destruct E as (_ & _ & ->); norm.
  step_in H create_policy_ok. destruct E as (_ & _ & ->); norm.
  step_in H create_policy_ok. destruct E as (_ & _ & ->); norm.
  step_in H create_policy_ok. destruct E as (_ & _ & ->); norm.
  cbn [exec_script] in H. injection H as <-. norm.
  split; [by repeat split |].
  unfold installed, profiles_policies, policy_key,
    key_on_auth_user_created, key_update_profiles_updated_at.
  cbn [foldl pol_table pol_name]. reflexivity.
Qed.

Lemma exec_ok_rewrite st c c' rest :
  exec st c = inr c' ->
  exec_script (st :: rest) c = exec_script rest c'.
Proof. intros H. by rewrite exec_script_cons, H. Qed.

Lemma installed_when_ready c :
  ready c -> exec_script setup c = inr (installed c).
Proof.
  intros (Ht1 & Ht2 & Hd1 & Hd2).
  unfold setup, add_functions, enable_rls_policies, profiles_policies.
  cbn [app map].
  rewrite exec_script_cons; cbn [exec]; norm.
  rewrite exec_script_cons; cbn [exec]; norm.
  erewrite exec_ok_rewrite
    by (apply drop_function_ok; split; [exact Hd1 | reflexivity]).
  norm.
  erewrite exec_ok_rewrite
    by (apply drop_function_ok; split; [exact Hd2 | reflexivity]).
  norm.
  rewrite exec_script_cons; cbn [exec]; norm.
  rewrite exec_script_cons; cbn [exec]; norm.
  erewrite exec_ok_rewrite
    by (apply create_trigger_ok; norm;
        repeat split; [done | by simplify_map_eq | by simplify_map_eq]).
  norm.
  erewrite exec_ok_rewrite
    by (apply create_trigger_ok; norm;
        repeat split; [done | by simplify_map_eq | by simplify_map_eq]).
  norm.
  do 4 (rewrite exec_script_cons; cbn [exec]; norm).
  erewrite exec_ok_rewrite by (apply enable_rls_ok; norm; by split).
  norm.
  do 4 (erewrite exec_ok_rewrite
          by (apply create_policy_ok; unfold policy_key;
              cbn [pol_table pol_name]; norm;
              repeat split; [done | by simplify_map_eq]);
        norm).
  cbn [exec_script].
  unfold installed, profiles_policies, policy_key,
    key_on_auth_user_created, key_update_profiles_updated_at.
  cbn [foldl pol_table pol_name]. reflexivity.
Qed.

Section ReinstallFacts.
Context `{Countable K} {V : Type}.
Implicit Types (kvs : list (K * V)) (m : gmap K V) (k : K).

Lemma lookup_put_all kvs m k :
  put_all kvs m !! k = latest_from (m !! k) kvs k.
Proof.
  revert m. induction kvs as [|kv kvs IH]; intros m; [done |].
  unfold put_all, latest_from in *. cbn [foldl].
  by rewrite IH, lookup_insert.
Qed.

Lemma lookup_drop_all kvs m k :
  drop_all kvs m !! k = if decide (k ∈ kvs.*1) then None else m !! k.
Proof.
  revert m. induction kvs as [|kv kvs IH]; intros m.
  - cbn. destruct (decide (k ∈ [])) as [Hk|]; [| done].
    by apply elem_of_nil in Hk.
  - unfold drop_all in *. cbn [foldl]. rewrite IH, lookup_delete.
    rewrite fmap_cons.
    destruct (decide (k ∈ kvs.*1)) as [Hin|Hin],
             (decide (kv.1 = k)) as [He|He],
             (decide (k ∈ kv.1 :: kvs.*1)) as [Hc|Hc]; try done.
    + exfalso. apply Hc. by right.
    + exfalso. apply Hc. by right.
    + exfalso. apply Hc. rewrite He. by left.
    + apply elem_of_cons in Hc as [-> | Hc]; done.
Qed.

Lemma latest_from_absent acc kvs k :
  k ∉ kvs.*1 -> latest_from acc kvs k = acc.
Proof.
  revert acc. induction kvs as [|kv kvs IH]; intros acc Hk; [done |].
  rewrite fmap_cons, not_elem_of_cons in Hk. destruct Hk as [Hne Hk].
  unfold latest_from in *. cbn [foldl].
  rewrite IH by done. case_decide; [congruence | done].
Qed.

Lemma latest_from_present acc acc' kvs k :
  k ∈ kvs.*1 -> latest_from acc kvs k = latest_from acc' kvs k.
Proof.
  revert acc acc'. induction kvs as [|kv kvs IH]; intros acc acc' Hk.
  - by apply elem_of_nil in Hk.
  - unfold latest_from in *. cbn [foldl].
    rewrite fmap_cons in Hk. apply elem_of_cons in Hk as [-> | Hk].
    + by rewrite !decide_True.
    + case_decide; by apply IH.
Qed.

Lemma lookup_reinstall kvs m k :
  reinstall kvs m !! k
  = if decide (k ∈ kvs.*1) then latest_from None kvs k else m !! k.
Proof.
  unfold reinstall. rewrite lookup_put_all, lookup_drop_all.
  case_decide as Hk.
  - done.
  - by apply latest_from_absent.
Qed.

Lemma reinstall_idemp kvs m : reinstall kvs (reinstall kvs m) = reinstall kvs m.
Proof.
  apply map_eq. intros k. rewrite !lookup_reinstall. by case_decide.
Qed.

Lemma drop_all_reinstall kvs m : drop_all kvs (reinstall kvs m) = drop_all kvs m.
Proof.
  apply map_eq. intros k. rewrite !lookup_drop_all, lookup_reinstall.
  by case_decide.
Qed.

End ReinstallFacts.

Lemma installed_eq c :
  installed c
  = {| tables := tables c;
       rls_enabled := {["profiles"]} ∪ rls_enabled c;
       functions := reinstall function_defs (functions c);
       triggers := reinstall trigger_defs (triggers c);
       policies := reinstall policy_defs (policies c) |}.
Proof. reflexivity. Qed.

Lemma dropped_triggers_eq c :
  dropped_triggers c = drop_all trigger_defs (triggers c).
Proof. reflexivity. Qed.

Lemma installed_idemp c : installed (installed c) = installed c.
Proof.
  rewrite !installed_eq. cbn [tables rls_enabled functions triggers policies].
  rewrite !reinstall_idemp. f_equal.
  apply set_eq. intros x. rewrite !elem_of_union. tauto.
Qed.

Lemma unused_when_undefined f c :
  consistent c -> functions c !! f = None ->
  unused_function f (dropped_triggers c).
Proof.
  intros Hc Hf. unfold dropped_triggers, unused_function.
  do 2 apply map_Forall_delete.
  intros k d Hd Heq. destruct (Hc k d Hd) as [fd Hfd]. congruence.
Qed.

Lemma ready_installed c : consistent c -> ready c -> ready (installed c).
Proof.
  intros Hc (Ht1 & Ht2 & Hd1 & Hd2).
  assert (Hdt : dropped_triggers (installed c) = dropped_triggers c).
  { rewrite !dropped_triggers_eq, installed_eq.
    cbn [triggers]. apply drop_all_reinstall. }
  unfold ready. rewrite Hdt. repeat split; [done | done | |].
  - right. destruct Hd1 as [Hd1 | Hd1]; [| done].
    by apply unused_when_undefined.
  - right. destruct Hd2 as [Hd2 | Hd2]; [| done].
    apply unused_when_undefined; [done |].
    by rewrite lookup_delete_ne in Hd2.
Qed.

Lemma setup_fixpoint c c1 :
  consistent c -> exec_script setup c = inr c1 ->
  exec_script setup c1 = inr c1.
Proof.
  intros Hc Hrun. apply setup_ok in Hrun as [Hr ->].
  rewrite installed_when_ready by by apply ready_installed.
  by rewrite installed_idemp.
Qed.

Lemma setup_times_fixpoint c1 n :
  exec_script setup c1 = inr c1 -> setup_times n c1 = inr c1.
Proof.
  intros Hfix. induction n as [|n IH]; [done |].
  cbn [setup_times]. by rewrite Hfix.
Qed.

(** C8. Running the setup scripts any number of times, at least once,
    gives what running them once gives: the same outcome and, when they
    succeed, the same schema, hence the same triggers and the same
    policies. *)
Theorem setup_idempotent c n :
  consistent c -> (1 <= n)%nat -> setup_times n c = setup_times 1 c.
Proof.
  intros Hc Hn. destruct n as [|n]; [lia |].
  cbn [setup_times].
  destruct (exec_script setup c) as [e|c1] eqn:Hrun; [done |].
  apply setup_times_fixpoint. by apply (setup_fixpoint c).
Qed.

Example setup_once : setup_times 1 tables_only = inr (installed tables_only).
Proof. vm_compute. reflexivity. Qed.

Example setup_twice : setup_times 2 tables_only = inr (installed tables_only).
Proof. vm_compute. reflexivity. Qed.

Lemma setup_idempotent_witness :
  setup_times 3 tables_only = setup_times 1 tables_only.
Proof.
  apply setup_idempotent; [| lia].
  unfold consistent. apply map_Forall_empty.
Defined.

End CatalogFacts.

(** ** Trimming and the helpers built on it *)

Module TrimFacts.
Import JsString ProfileUtils Trimmed JsStringFacts.

Lemma trimStart_clean (s : jsstring) : clean_start (trimStart s).
Proof.
  destruct (trimStart s) as [|c r] eqn:E; [done |].
  by apply trimStart_head in E.
Qed.

Lemma trimStart_of_clean (s : jsstring) : clean_start s -> trimStart s = s.
Proof. destruct s as [|c r]; simpl; [done |]. by intros ->. Qed.

Lemma trimStart_split (s : jsstring) :
  exists w, s = w ++ trimStart s /\ whitespace_only w.
Proof.
  induction s as [|c r (w & Hr & Hw)]; simpl.
  - exists []. split; [done | constructor].
  - destruct (is_js_whitespace c) eqn:E.
    + exists (c :: w). split; [simpl; congruence | by constructor].
    + exists []. split; [done | constructor].
Qed.

Lemma trimEnd_split (s : jsstring) :
  exists w, s = trimEnd s ++ w /\ whitespace_only w.
Proof.
  destruct (trimStart_split (reverse s)) as (w & Hs & Hw).
  exists (reverse w). split.
  - unfold trimEnd. rewrite <- reverse_app, <- Hs.
    by rewrite reverse_involutive.
  - by apply whitespace_only_reverse.
Qed.

Lemma clean_start_prefix (p s : jsstring) :
  p `prefix_of` s -> clean_start s -> clean_start p.
Proof. intros [k ->]. by destruct p. Qed.

Lemma trimEnd_clean_end (s : jsstring) : clean_start (reverse (trimEnd s)).
Proof.
  unfold trimEnd. rewrite reverse_involutive. apply trimStart_clean.
Qed.

Lemma trimEnd_of_clean_end (s : jsstring) :
  clean_start (reverse s) -> trimEnd s = s.
Proof.
  intros Hs. unfold trimEnd.
  by rewrite trimStart_of_clean, reverse_involutive.
Qed.

Lemma trim_clean (s : jsstring) : clean (trim s).
Proof.
  unfold trim. split; [| apply trimEnd_clean_end].
  destruct (trimEnd_split (trimStart s)) as (w & Hs & _).
  apply (clean_start_prefix _ (trimStart s)); [| apply trimStart_clean].
  by exists w.
Qed.

Lemma trim_of_clean (s : jsstring) : clean s -> trim s = s.
Proof.
  intros [Hs He]. unfold trim.
  by rewrite trimStart_of_clean, trimEnd_of_clean_end.
Qed.

(** [trim] removes white space only, and only at the two ends; what it
    leaves neither begins nor ends with white space. *)
Lemma trim_spec (s : jsstring) :
  exists w1 w2,
    s = w1 ++ trim s ++ w2
    /\ whitespace_only w1 /\ whitespace_only w2
    /\ clean (trim s).
Proof.
  destruct (trimStart_split s) as (w1 & Hs & Hw1).
  destruct (trimEnd_split (trimStart s)) as (w2 & Ht & Hw2).
  exists w1, w2. split; [| by auto using trim_clean].
  unfold trim. by rewrite <- Ht.
Qed.

(** X2. Sanitising twice is sanitising once. *)
Theorem sanitizeProfileData_idempotent (data : FormData) :
  sanitizeProfileData (sanitizeProfileData data) = sanitizeProfileData data.
Proof.
  unfold sanitizeProfileData. cbn [fd_full_name fd_avatar_url].
  by rewrite !(trim_of_clean (trim _)) by apply trim_clean.
Qed.

(** X1. The fields [sanitizeProfileData] returns are the fields it was given
    with white space removed at both ends and nothing else changed:
    what is returned neither begins nor ends with white space. *)
Theorem sanitizeProfileData_spec (data : FormData) :
  (exists a b c d,
     fd_full_name data = a ++ fd_full_name (sanitizeProfileData data) ++ b
     /\ fd_avatar_url data = c ++ fd_avatar_url (sanitizeProfileData data) ++ d
     /\ whitespace_only a /\ whitespace_only b
     /\ whitespace_only c /\ whitespace_only d)
  /\ clean (fd_full_name (sanitizeProfileData data))
  /\ clean (fd_avatar_url (sanitizeProfileData data)).
Proof.
  destruct (trim_spec (fd_full_name data)) as (a & b & Hn & Ha & Hb & Hcn).
  destruct (trim_spec (fd_avatar_url data)) as (c & d & Hu & Hc & Hd & Hcu).
  split; [by exists a, b, c, d | by split].
Qed.

(** X3. The initials do not depend on white space around the name: they are
    the same for the name as typed and for the sanitised name. *)
Theorem generateInitials_sanitized `{JsHost} (data : FormData) email :
  generateInitials (Some (fd_full_name (sanitizeProfileData data))) email
  = generateInitials (Some (fd_full_name data)) email.
Proof.
  unfold generateInitials, sanitizeProfileData.
  cbn [fd_full_name fmap option_fmap option_map].
  by rewrite (trim_of_clean (trim _)) by apply trim_clean.
Qed.

End TrimFacts.

(** ** components/app-sidebar.tsx *)

Module SidebarFacts.
Import JsString ProfileUtils Store Samples Sidebar JsStringFacts.

(** The first piece of a split: it has no separator in it, and the
    string is that piece alone or that piece, a separator and the
    rest. *)
Lemma split_head sep (s : jsstring) :
  exists p rest,
    split sep s = p :: rest
    /\ (sep ∉ p)
    /\ ((s = p /\ rest = []) \/ exists t, s = p ++ sep :: t).
Proof.
  induction s as [|c r (p & rest & Hsp & Hp & Hs)]; simpl.
  - exists [], []. split; [done |]. split; [apply not_elem_of_nil | by left].
  - destruct (N.eqb_spec c sep) as [-> | Hne].
    + exists [], (split sep r). split; [done |].
      split; [apply not_elem_of_nil |]. right. by exists r.
    + rewrite Hsp. exists (c :: p), rest. split; [done |]. split.
      * apply not_elem_of_cons. split; [congruence | done].
      * destruct Hs as [[-> ->] | (t & ->)]; [by left |].
        right. by exists t.
Qed.

Lemma startsWith_prefix (s p : jsstring) :
  startsWith s p = true <-> p `prefix_of` s.
Proof.
  revert s. induction p as [|c p IH]; intros s.
  - split; [intros _; apply prefix_nil | by destruct s].
  - destruct s as [|d s]; simpl.
    + split; [done |]. intros Hp. by apply prefix_nil_inv in Hp.
    + rewrite andb_true_iff, N.eqb_eq, IH. split.
      * intros [-> Hp]. by apply prefix_cons.
      * intros Hp. split; [by apply prefix_cons_inv_1 in Hp |].
        by apply prefix_cons_inv_2 in Hp.
Qed.

(** X4. The display name is never undefined.  It is the profile's name when
    that is a non-empty string; otherwise, for a user with a non-empty
    email, it is the part of the email before its first [@], which has
    no [@] in it; otherwise it is "Guest User". *)
Theorem getDisplayName_spec (profile : option Profile) (user : option User) :
  (exists name, getDisplayName profile user = Some name)
  /\ (forall n, profile_full_name profile = Some n -> n <> [] ->
        getDisplayName profile user = Some n)
  /\ (truthy_opt (profile_full_name profile) = false ->
      forall e, user_email_of user = Some e -> e <> [] ->
      exists name,
        getDisplayName profile user = Some name
        /\ (at_sign ∉ name)
        /\ (e = name \/ exists t, e = name ++ at_sign :: t))
  /\ (truthy_opt (profile_full_name profile) = false ->
      truthy_opt (user_email_of user) = false ->
      getDisplayName profile user = Some (js "Guest User")).
Proof.
  unfold getDisplayName.
  destruct (profile_full_name profile) as [[|c n]|]; cbn [truthy_opt truthy].
  2: { split; [by eexists |]. split; [by intros n' [= <-] |].
       split; discriminate. }
  all: destruct (user_email_of user) as [[|d e]|];
    cbn [truthy_opt truthy mbind option_bind].
  all: try (split; [by eexists |]; split; [by intros n' [= <-] |];
            split; [by intros _ e' [= <-] | done]).
  all: destruct (split_head at_sign (d :: e)) as (p & rest & Hsp & Hp & Hs);
    rewrite Hsp; cbn [head].
  all: split; [by eexists |]; split; [by intros n' [= <-] |];
    split; [| discriminate]; intros _ e' [= <-] _; exists p;
    split; [done |]; split; [done |];
    destruct Hs as [[-> _] | Hs]; [by left | by right].
Qed.

(** X5. For a name that is not empty and has no white space around it, the
    sidebar initials are the first two code units of the initials the
    edit form shows. *)
Theorem getInitials_generateInitials `{JsHost} (profile : Profile)
    (user : option User) (n email : jsstring) :
  full_name profile = Some n -> n <> [] -> trim n = n ->
  exists i,
    generateInitials (Some n) email = Normal i
    /\ getInitials (Some profile) user = Some (take 2 i).
Proof.
  intros Hn Hne Ht.
  unfold generateInitials, getInitials, slice_0_2, profile_full_name.
  cbn [mbind option_bind fmap option_fmap option_map]. rewrite Hn, Ht.
  cbn [truthy_opt]. apply truthy_true in Hne. rewrite Hne.
  eexists. by split.
Qed.

Lemma getDisplayName_spec_witness :
  exists name,
    getDisplayName None (Some {| user_email := Some (js "a@x.com") |})
    = Some name
    /\ (at_sign ∉ name)
    /\ (js "a@x.com" = name \/ exists t, js "a@x.com" = name ++ at_sign :: t).
Proof.
  apply (proj1 (proj2 (proj2
           (getDisplayName_spec None
              (Some {| user_email := Some (js "a@x.com") |}))))
           eq_refl (js "a@x.com") eq_refl).
  discriminate.
Defined.

Lemma getInitials_generateInitials_witness :
  exists i,
    generateInitials (H := test_host) (Some (js "Ann")) (js "a@x.com")
    = Normal i
    /\ getInitials (H := test_host) (Some (provisioned_row ann 100)) None
       = Some (take 2 i).
Proof.
  apply (getInitials_generateInitials (H := test_host)
           (provisioned_row ann 100) None (js "Ann") (js "a@x.com")).
  - reflexivity.
  - discriminate.
  - reflexivity.
Defined.

(** X6. A name made of spaces only is truthy for the sidebar, which does not
    trim it: the sidebar's initials are then the first two units of the
    host's upper-casing of the empty string, while the edit form falls
    back on the first character of the email. *)
Theorem getInitials_blank_name `{JsHost} (profile : Profile)
    (user : option User) (n email : jsstring) :
  full_name profile = Some n -> n <> [] -> Forall (fun c => c = space) n ->
  getInitials (Some profile) user = Some (take 2 (toUpperCase []))
  /\ generateInitials (Some n) email = call_toUpperCase (index0 email).
Proof.
  intros Hn Hne Hsp. split.
  - unfold getInitials, slice_0_2, profile_full_name.
    cbn [mbind option_bind]. rewrite Hn. cbn [truthy_opt].
    apply truthy_true in Hne. rewrite Hne. do 3 f_equal.
    clear Hn Hne. induction Hsp as [|c r -> _ IH]; [done |]. exact IH.
  - apply ProfileUtilsFacts.generateInitials_fallback.
    eapply Forall_impl; [exact Hsp |]. by intros c ->.
Qed.

Lemma getInitials_blank_name_witness :
  getInitials (H := test_host) (Some (blank_profile)) None
  = Some (take 2 (toUpperCase (JsHost := test_host) []))
  /\ generateInitials (H := test_host) (Some (js "  ")) (js "a@x.com")
     = call_toUpperCase (H := test_host) (index0 (js "a@x.com")).
Proof.
  apply (getInitials_blank_name (H := test_host) blank_profile None
           (js "  ") (js "a@x.com")).
  - reflexivity.
  - discriminate.
  - by repeat constructor.
Defined.

(** X7. Of the entries of the menu, at most one is active, whatever the
    path; "/" is active on the path "/" only, and "/profile" on every
    path that begins with "/profile". *)
Theorem isActiveRoute_exclusive (pathname : jsstring) :
  (isActiveRoute pathname (js "/") = true <-> pathname = js "/")
  /\ (isActiveRoute pathname (js "/profile") = true
      <-> js "/profile" `prefix_of` pathname)
  /\ (forall u v, u ∈ navMain -> v ∈ navMain ->
        isActiveRoute pathname u = true ->
        isActiveRoute pathname v = true -> u = v).
Proof.
  assert (H1 : isActiveRoute pathname (js "/") = true <-> pathname = js "/").
  { unfold isActiveRoute. rewrite bool_decide_eq_true_2 by done.
    apply bool_decide_eq_true. }
  assert (H2 : isActiveRoute pathname (js "/profile") = true
               <-> js "/profile" `prefix_of` pathname).
  { unfold isActiveRoute. rewrite bool_decide_eq_false_2 by done.
    apply startsWith_prefix. }
  assert (Hex : ~ (isActiveRoute pathname (js "/") = true
                   /\ isActiveRoute pathname (js "/profile") = true)).
  { intros [Ha Hb]. apply H1 in Ha. apply H2 in Hb. subst pathname.
    destruct Hb as [k Hk]. discriminate. }
  split; [done |]. split; [done |].
  intros u v Hu Hv Hau Hav.
  apply list_elem_of_In in Hu. apply list_elem_of_In in Hv.
  destruct Hu as [<- | [<- | []]]; destruct Hv as [<- | [<- | []]];
    try reflexivity; exfalso; apply Hex; by split.
Qed.

End SidebarFacts.

(** ** What the policies and the triggers leave alone *)

Module StoreFrameFacts.
Import JsString Store Samples Access PolicyFacts TriggerFacts AccessFacts
       LifecycleFacts.

Lemma delete_permitted_decide u r :
  delete_permitted (Role u) r = bool_decide (u = Some (id r)).
Proof.
  apply eq_true_iff_eq.
  by rewrite delete_permitted_iff, bool_decide_eq_true.
Qed.

(** X8. A DELETE under an identity removes rows of that identity only, and
    of them those its WHERE clause selects: every other row stays, in
    its place, and the identities are not touched. *)
Theorem delete_own_rows_only (u : option uuid) wh db :
  profiles (run_delete (Role u) wh db).1
  = List.filter (fun r => negb (bool_decide (u = Some (id r)) && wh r))
                (profiles db)
  /\ (run_delete (Role u) wh db).2
     = List.filter (fun r => bool_decide (u = Some (id r)) && wh r)
                   (profiles db)
  /\ (forall r, r ∈ profiles db -> u <> Some (id r) ->
                r ∈ profiles (run_delete (Role u) wh db).1)
  /\ auth_users (run_delete (Role u) wh db).1 = auth_users db.
Proof.
  unfold run_delete. cbn [fst snd with_profiles profiles auth_users].
  assert (He : forall r, delete_permitted (Role u) r && wh r
                         = bool_decide (u = Some (id r)) && wh r).
  { intros r. by rewrite delete_permitted_decide. }
  split; [| split; [| split; [| done]]].
  - apply filter_ext. intros r. by rewrite He.
  - apply filter_ext. intros r. by rewrite He.
  - intros r Hr Hne. apply list_elem_of_In, filter_In.
    split; [by apply list_elem_of_In |].
    by rewrite He, bool_decide_eq_false_2.
Qed.

(** X9. An UPDATE under an identity, when it succeeds, rewrites rows of that
    identity only: no row changes its id, every row of another identity
    stays as it was and where it was, the rows returned are the
    caller's, and the identities are not touched. *)
Theorem update_own_rows_only (u : option uuid) wh st now db db' ret :
  run_update (Role u) wh st now db = Ok (db', ret) ->
  map id (profiles db') = map id (profiles db)
  /\ (forall i r, profiles db !! i = Some r -> u <> Some (id r) ->
                  profiles db' !! i = Some r)
  /\ (forall r', r' ∈ ret -> u = Some (id r'))
  /\ auth_users db' = auth_users db.
Proof.
  intros Hrun. pose proof (role_update_rows u wh st now db db' ret Hrun)
    as (Hdb' & Hret & Hown).
  assert (Hid : forall r, r ∈ profiles db ->
                  id (rewritten (Role u) wh st now r) = id r).
  { intros r Hr. unfold rewritten.
    destruct (update_locates (Role u) r && wh r) eqn:Ht; [| done].
    by destruct (Hown r Hr Ht). }
  split; [| split; [| split]].
  - rewrite Hdb', map_map. apply map_ext_in. intros r Hr.
    apply Hid. by apply list_elem_of_In.
  - intros i r Hi Hne. rewrite Hdb'.
    etrans; [apply list_lookup_fmap |]. rewrite Hi. cbn [fmap option_fmap option_map].
    f_equal. unfold rewritten.
    destruct (update_locates (Role u) r) eqn:Hl; [| done].
    by apply update_locates_iff in Hl.
  - intros r' Hr'. rewrite Hret in Hr'.
    apply list_elem_of_fmap in Hr' as (r & -> & Hr).
    apply list_elem_of_In, filter_In in Hr as [Hr Ht].
    apply list_elem_of_In in Hr. destruct (Hown r Hr Ht) as [Hu Hi].
    by rewrite Hi.
  - unfold run_update in Hrun.
    destruct (update_rows _ _ _ _ _ _) as [[rows rt]|]; [| done].
    cbn in Hrun. by injection Hrun as <- _.
Qed.

Lemma update_rows_all_rejected c wh st now (rows : list Profile) :
  (forall r, r ∈ rows -> update_locates c r && wh r = true ->
             update_result_permitted c (updated_row st now r) = false) ->
  (exists r, r ∈ rows /\ update_locates c r && wh r = true) ->
  forall done,
  update_rows c wh st now done rows = Err insufficient_privilege.
Proof.
  induction rows as [|x rest IH]; intros Hrej (r & Hr & Ht) done.
  - by apply elem_of_nil in Hr.
  - cbn [update_rows].
    destruct (update_locates c x && wh x) eqn:Hx.
    + by rewrite (Hrej x) by (by left || done).
    + apply IH.
      * intros y Hy. apply Hrej. by right.
      * exists r. split; [| done].
        apply elem_of_cons in Hr as [-> | Hr]; [congruence | done].
Qed.

(** X10. An UPDATE that assigns another id to the caller's row is refused as
    a violation of the row policy, and so changes nothing: the id of a
    row cannot be changed by its owner. *)
Theorem update_cannot_change_id (i j : uuid) wh st now db r :
  set_id st = Some j -> j <> i ->
  r ∈ profiles db -> id r = i -> wh r = true ->
  run_update (Role (Some i)) wh st now db = Err insufficient_privilege.
Proof.
  intros Hset Hne Hr Hi Hwh. unfold run_update.
  rewrite update_rows_all_rejected; [done | |].
  - intros x Hx Ht.
    destruct (update_result_permitted _ _) eqn:Hp; [| done].
    apply update_result_permitted_iff in Hp. simpl in Hp.
    rewrite Hset in Hp. simpl in Hp. congruence.
  - exists r. split; [done |]. rewrite Hwh, andb_true_r.
    apply update_locates_iff. by rewrite Hi.
Qed.

(** X11. Rows read back right after the identity was created: the identity
    itself reads exactly the row the trigger inserted, and any other
    caller reads nothing under that id. *)
Theorem provision_then_select new now db db' :
  insert_auth_users new now db = Ok db' ->
  run_select (Role (Some (Auth.id new))) (eq_id (Auth.id new)) db'
  = [provisioned_row new now]
  /\ (forall u, u <> Some (Auth.id new) ->
        run_select (Role u) (eq_id (Auth.id new)) db' = []).
Proof.
  intros Hok. apply insert_auth_users_ok in Hok as (_ & Hfree & ->).
  split.
  - assert (Hsel : select_permitted (Role (Some (Auth.id new)))
                                   (provisioned_row new now) = true)
      by by apply select_permitted_iff.
    rewrite run_select_eq_id. cbn [profiles].
    rewrite !List.filter_app. cbn [List.filter]. rewrite Hsel.
    cbn [List.filter]. rewrite bool_decide_eq_true_2 by done.
    rewrite (filter_all_false_in _ (List.filter _ (profiles db))); [done |].
    intros r Hr. apply list_elem_of_In, filter_In in Hr as [Hr _].
    apply bool_decide_eq_false. intros He.
    apply id_taken_false in Hfree. apply Hfree. rewrite <- He.
    apply list_elem_of_fmap_2. by apply list_elem_of_In.
  - intros u Hu. rewrite run_select_eq_id.
    apply filter_all_false_in. intros r Hr.
    apply list_elem_of_In, filter_In in Hr as [_ Hs].
    apply select_permitted_iff in Hs. apply bool_decide_eq_false.
    congruence.
Qed.

(** X12. Creating an identity keeps what is there: the rows and the
    identities already stored stay, in order, at the head of their
    tables, and a primary key that held still holds. *)
Theorem create_identity_conservative new now db :
  profiles db `prefix_of` profiles (create_identity new now db)
  /\ auth_users db `prefix_of` auth_users (create_identity new now db)
  /\ (ids_unique (profiles db) = true ->
      ids_unique (profiles (create_identity new now db)) = true).
Proof.
  unfold create_identity. rewrite insert_auth_users_eq.
  destruct (user_exists _ _); [done |].
  destruct (id_taken _ _) eqn:Hfree; [done |].
  cbn [commit profiles auth_users].
  split; [by apply prefix_app_r |]. split; [by apply prefix_app_r |].
  rewrite !ids_unique_NoDup, map_app. intros Hnd.
  apply NoDup_app. split; [done |]. split; [| apply NoDup_singleton].
  intros i Hi Hi'. apply list_elem_of_singleton in Hi' as ->.
  by apply id_taken_false in Hfree.
Qed.

Lemma length_insert_sorted le x (l : list Profile) :
  length (insert_sorted le x l) = S (length l).
Proof.
  induction l as [|y t IH]; simpl; [done |].
  destruct (le x y); simpl; by rewrite ?IH.
Qed.

Lemma length_sort_by le (l : list Profile) : length (sort_by le l) = length l.
Proof.
  unfold sort_by. induction l as [|x t IH]; simpl; [done |].
  by rewrite length_insert_sorted, IH.
Qed.

Lemma length_filter_le {A} (f : A -> bool) (l : list A) :
  (length (List.filter f l) <= length l)%nat.
Proof.
  induction l as [|x t IH]; simpl; [done |]. destruct (f x); simpl; lia.
Qed.

(** X13. With the primary key in force, a caller is returned at most one row,
    whatever the filter, the ordering and the limit of its query; and a
    query with a limit returns no more rows than its limit. *)
Theorem select_at_most_own_row (u : option uuid) q db :
  ids_unique (profiles db) = true ->
  (length (run_select (Role u) q db) <= 1)%nat
  /\ (forall n, q_limit q = Some n ->
        (length (run_select (Role u) q db) <= n)%nat).
Proof.
  intros Hu. apply ids_unique_NoDup in Hu.
  assert (Hvis : (length (visible_rows (Role u) db) <= 1)%nat).
  { unfold visible_rows.
    destruct (List.filter _ (profiles db)) as [|a [|b l]] eqn:E;
      simpl; [lia | lia |].
    assert (Ha : a ∈ List.filter (select_permitted (Role u)) (profiles db))
      by (rewrite E; by left).
    assert (Hb : b ∈ List.filter (select_permitted (Role u)) (profiles db))
      by (rewrite E; right; by left).
    apply list_elem_of_In, filter_In in Ha as [Ha Hpa].
    apply list_elem_of_In, filter_In in Hb as [Hb Hpb].
    apply select_permitted_iff in Hpa, Hpb.
    assert (a = b).
    { apply (NoDup_ids_inj (profiles db));
        [done | by apply list_elem_of_In | by apply list_elem_of_In
        | congruence]. }
    subst b. exfalso.
    assert (Hnd : NoDup (List.filter (select_permitted (Role u))
                                     (profiles db))).
    { apply NoDup_ListNoDup, List.NoDup_filter, NoDup_ListNoDup.
      by apply NoDup_fmap_1 in Hu. }
    rewrite E in Hnd. apply NoDup_cons in Hnd as [Hnd _].
    apply Hnd. by left. }
  pose proof (length_filter_le (q_where q) (visible_rows (Role u) db)) as Hf.
  unfold run_select. split.
  - destruct (q_limit q) as [n|], (q_order q) as [le|];
      rewrite ?length_take, ?length_sort_by; lia.
  - intros n ->. rewrite length_take. lia.
Qed.

Lemma create_identity_conservative_witness :
  ids_unique (profiles (create_identity bob 200 ann_db)) = true.
Proof.
  apply (proj2 (proj2 (create_identity_conservative bob 200 ann_db))).
  reflexivity.
Defined.

Lemma update_own_rows_only_witness :
  exists db' ret,
    run_update (Role (Some "U2")) (fun _ => true) set_nothing 200
               stray_profile_db = Ok (db', ret)
    /\ map id (profiles db') = map id (profiles stray_profile_db)
    /\ (forall i r, profiles stray_profile_db !! i = Some r ->
                    Some "U2" <> Some (id r) -> profiles db' !! i = Some r)
    /\ (forall r', r' ∈ ret -> Some "U2" = Some (id r'))
    /\ auth_users db' = auth_users stray_profile_db.
Proof.
  destruct (run_update (Role (Some "U2")) (fun _ => true) set_nothing 200
              stray_profile_db) as [[db' ret]|] eqn:E;
    [| vm_compute in E; discriminate].
  exists db', ret. split; [reflexivity |].
  exact (update_own_rows_only _ _ _ _ _ _ _ E).
Defined.

Lemma update_cannot_change_id_witness :
  run_update (Role (Some "U1")) (fun _ => true) renaming_set 200 ann_db
  = Err insufficient_privilege.
Proof.
  apply (update_cannot_change_id "U1" "U9" _ _ _ _ (provisioned_row ann 100)).
  - reflexivity.
  - discriminate.
  - vm_compute. left.
  - reflexivity.
  - reflexivity.
Defined.

Lemma provision_then_select_witness :
  run_select (Role (Some "U1")) (eq_id "U1") ann_db
  = [provisioned_row ann 100]
  /\ (forall u, u <> Some "U1" ->
        run_select (Role u) (eq_id "U1") ann_db = []).
Proof.
  apply (provision_then_select ann 100 empty_db ann_db).
  vm_compute. reflexivity.
Defined.

Lemma select_at_most_own_row_witness :
  (length (run_select (Role (Some "U2")) (eq_id "U2") stray_profile_db)
   <= 1)%nat
  /\ (forall n, q_limit (eq_id "U2") = Some n ->
        (length (run_select (Role (Some "U2")) (eq_id "U2")
                            stray_profile_db) <= n)%nat).
Proof.
  apply (select_at_most_own_row (Some "U2") (eq_id "U2") stray_profile_db).
  reflexivity.
Defined.

End StoreFrameFacts.

(** ** More on the setup scripts *)

Module SetupFacts.
Import Store Catalog CatalogParts CatalogFacts.

Section Latest.
Context `{Countable K} {V : Type}.
Implicit Types (kvs : list (K * V)) (m : gmap K V) (k : K).

(** With keys that are all different, each key of the list is bound to
    its own value once the list is reinstalled. *)
Lemma lookup_reinstall_own kvs m k v :
  NoDup kvs.*1 -> (k, v) ∈ kvs -> reinstall kvs m !! k = Some v.
Proof.
  intros Hnd Hin. rewrite lookup_reinstall.
  rewrite decide_True by (by apply (list_elem_of_fmap_2 fst _ (k, v))).
  clear m. revert Hnd Hin.
  generalize (@None V). induction kvs as [|[k' v'] kvs IH];
    intros acc Hnd Hin; [by apply elem_of_nil in Hin |].
  rewrite fmap_cons in Hnd. apply NoDup_cons in Hnd as [Hk' Hnd].
  change (latest_from acc ((k', v') :: kvs) k)
    with (latest_from (if decide (k' = k) then Some v' else acc) kvs k).
  apply elem_of_cons in Hin as [[= <- <-] | Hin].
  - rewrite decide_True by done. by apply latest_from_absent.
  - by apply IH.
Qed.

Lemma lookup_reinstall_other kvs m k :
  k ∉ kvs.*1 -> reinstall kvs m !! k = m !! k.
Proof. intros Hk. rewrite lookup_reinstall. by rewrite decide_False. Qed.

End Latest.

Lemma policy_keys_distinct : NoDup policy_defs.*1.
Proof. apply (bool_decide_unpack _). by vm_compute. Qed.

Lemma trigger_keys_distinct : NoDup trigger_defs.*1.
Proof. apply (bool_decide_unpack _). by vm_compute. Qed.

Lemma function_keys_distinct : NoDup function_defs.*1.
Proof. apply (bool_decide_unpack _). by vm_compute. Qed.

(** X14. After a successful setup, whatever carried their names before, the
    two functions, the two triggers and the four policies of the scripts
    are the ones in place, and row level security is enabled on
    [profiles]. *)
Theorem setup_installs c c1 :
  exec_script setup c = inr c1 ->
  functions c1 !! "handle_new_user" = Some def_handle_new_user
  /\ functions c1 !! "update_updated_at_column"
     = Some def_update_updated_at_column
  /\ triggers c1 !! key_on_auth_user_created = Some def_on_auth_user_created
  /\ triggers c1 !! key_update_profiles_updated_at
     = Some def_update_profiles_updated_at
  /\ (forall p, p ∈ profiles_policies -> policies c1 !! policy_key p = Some p)
  /\ "profiles" ∈ rls_enabled c1.
Proof.
  intros Hrun. apply setup_ok in Hrun as [_ ->]. rewrite installed_eq.
  cbn [functions triggers policies rls_enabled].
  repeat split.
  - apply lookup_reinstall_own; [apply function_keys_distinct |]. by left.
  - apply lookup_reinstall_own; [apply function_keys_distinct |].
    right. by left.
  - apply lookup_reinstall_own; [apply trigger_keys_distinct |]. by left.
  - apply lookup_reinstall_own; [apply trigger_keys_distinct |].
    right. by left.
  - intros p Hp. apply lookup_reinstall_own; [apply policy_keys_distinct |].
    unfold policy_defs. by apply (list_elem_of_fmap_2 (fun p => (policy_key p, p))).
  - apply elem_of_union. left. by apply elem_of_singleton.
Qed.

(** X15. A successful setup touches nothing but what it names: the tables,
    and every function, trigger and policy under another name, are as
    they were; no table loses row level security. *)
Theorem setup_frame c c1 :
  exec_script setup c = inr c1 ->
  tables c1 = tables c
  /\ (forall f, f <> "handle_new_user" -> f <> "update_updated_at_column" ->
        functions c1 !! f = functions c !! f)
  /\ (forall k, k <> key_on_auth_user_created ->
        k <> key_update_profiles_updated_at ->
        triggers c1 !! k = triggers c !! k)
  /\ (forall k, (forall p, p ∈ profiles_policies -> k <> policy_key p) ->
        policies c1 !! k = policies c !! k)
  /\ rls_enabled c ⊆ rls_enabled c1.
Proof.
  intros Hrun. apply setup_ok in Hrun as [_ ->]. rewrite installed_eq.
  cbn [tables functions triggers policies rls_enabled].
  split; [done |]. split; [| split; [| split]].
  - intros f H1 H2. apply lookup_reinstall_other.
    cbn. rewrite !not_elem_of_cons. by repeat split; try apply not_elem_of_nil.
  - intros k H1 H2. apply lookup_reinstall_other.
    cbn. rewrite !not_elem_of_cons. by repeat split; try apply not_elem_of_nil.
  - intros k Hk. apply lookup_reinstall_other.
    intros Hin. apply list_elem_of_fmap in Hin as ([k' p] & -> & Hin).
    unfold policy_defs in Hin.
    apply list_elem_of_fmap in Hin as (q & [= -> ->] & Hq).
    by apply (Hk q).
  - intros t Ht. apply elem_of_union. by right.
Qed.

(** X16. Without its two tables the setup fails, whatever else the schema
    holds. *)
Theorem setup_needs_tables c :
  "auth.users" ∉ tables c \/ "profiles" ∉ tables c ->
  exists e, exec_script setup c = inl e.
Proof.
  intros Hmiss. destruct (exec_script setup c) as [e|c1] eqn:Hrun;
    [by exists e |].
  apply setup_ok in Hrun as [(Ht1 & Ht2 & _) _]. by destruct Hmiss.
Qed.

(** X17. While a trigger other than the two of the script executes
    [handle_new_user], the setup stops at DROP FUNCTION with the error of
    dependent objects. *)
Theorem setup_refuses_used_function c k td fd :
  k <> key_on_auth_user_created -> k <> key_update_profiles_updated_at ->
  triggers c !! k = Some td -> trg_function td = "handle_new_user" ->
  functions c !! "handle_new_user" = Some fd ->
  exec_script setup c = inl dependent_objects_still_exist.
Proof.
  intros Hk1 Hk2 Htd Hfn Hfd.
  unfold setup, add_functions. cbn [app].
  rewrite exec_script_cons; cbn [exec]; norm.
  rewrite exec_script_cons; cbn [exec]; norm.
  rewrite exec_script_cons. cbn [exec]. norm. rewrite Hfd.
  rewrite decide_False; [done |].
  intros Hun. apply (Hun k td); [| done].
  unfold key_on_auth_user_created, key_update_profiles_updated_at in *.
  by rewrite !lookup_delete_ne.
Qed.

(** X18. A successful setup of a consistent schema leaves a consistent
    schema: every trigger still executes a function that exists. *)
Theorem setup_consistent c c1 :
  consistent c -> exec_script setup c = inr c1 -> consistent c1.
Proof.
  intros Hc Hrun. apply setup_ok in Hrun as [_ ->].
  unfold consistent. rewrite installed_eq. cbn [functions triggers].
  intros k d Hd. rewrite lookup_reinstall in Hd.
  assert (Hdefs : forall f, (f = "handle_new_user"
                             \/ f = "update_updated_at_column") ->
            is_Some (reinstall function_defs (functions c) !! f)).
  { intros f [-> | ->]; eexists;
      (apply lookup_reinstall_own; [apply function_keys_distinct |]);
      [by left | right; by left]. }
  case_decide as Hk.
  - cbn in Hk. apply elem_of_cons in Hk as [-> | Hk];
      [| apply elem_of_cons in Hk as [-> | Hk];
         [| by apply elem_of_nil in Hk]];
      vm_compute in Hd; injection Hd as <-; apply Hdefs; auto.
  - specialize (Hc k d Hd). cbn beta in Hc.
    destruct (decide (trg_function d ∈ function_defs.*1)) as [Hin | Hout].
    + apply Hdefs. cbn in Hin. apply elem_of_cons in Hin as [-> | Hin];
        [by left |]. apply elem_of_cons in Hin as [-> | Hin]; [by right |].
      by apply elem_of_nil in Hin.
    + by rewrite lookup_reinstall_other.
Qed.

Lemma setup_tables_only :
  exec_script setup tables_only = inr (installed tables_only).
Proof. vm_compute. reflexivity. Qed.

Lemma setup_installs_witness :
  let c1 := installed tables_only in
  functions c1 !! "handle_new_user" = Some def_handle_new_user
  /\ functions c1 !! "update_updated_at_column"
     = Some def_update_updated_at_column
  /\ triggers c1 !! key_on_auth_user_created = Some def_on_auth_user_created
  /\ triggers c1 !! key_update_profiles_updated_at
     = Some def_update_profiles_updated_at
  /\ (forall p, p ∈ profiles_policies -> policies c1 !! policy_key p = Some p)
  /\ "profiles" ∈ rls_enabled c1.
Proof. exact (setup_installs tables_only _ setup_tables_only). Defined.

Lemma setup_frame_witness :
  let c1 := installed tables_only in
  tables c1 = tables tables_only
  /\ (forall f, f <> "handle_new_user" -> f <> "update_updated_at_column" ->
        functions c1 !! f = functions tables_only !! f)
  /\ (forall k, k <> key_on_auth_user_created ->
        k <> key_update_profiles_updated_at ->
        triggers c1 !! k = triggers tables_only !! k)
  /\ (forall k, (forall p, p ∈ profiles_policies -> k <> policy_key p) ->
        policies c1 !! k = policies tables_only !! k)
  /\ rls_enabled tables_only ⊆ rls_enabled c1.
Proof. exact (setup_frame tables_only _ setup_tables_only). Defined.

Lemma setup_needs_tables_witness :
  exists e, exec_script setup no_tables = inl e.
Proof.
  apply setup_needs_tables. left. apply not_elem_of_empty.
Defined.

Lemma setup_refuses_used_function_witness :
  exec_script setup audited_schema = inl dependent_objects_still_exist.
Proof.
  apply (setup_refuses_used_function audited_schema
           ("audit_log", "on_audit") def_on_auth_user_created
           def_handle_new_user).
  - discriminate.
  - discriminate.
  - vm_compute. reflexivity.
  - reflexivity.
  - vm_compute. reflexivity.
Defined.

Lemma setup_consistent_witness : consistent (installed tables_only).
Proof.
  apply (setup_consistent tables_only); [| exact setup_tables_only].
  unfold consistent. apply map_Forall_empty.
Defined.

End SetupFacts.

Module ScriptOrderFacts.
Import Store Catalog CatalogParts CatalogFacts.

Lemma exec_script_app a b c :
  exec_script (a ++ b) c
  = match exec_script a c with
    | inr c' => exec_script b c'
    | inl e => inl e
    end.
Proof.
  revert c. induction a as [|st a IH]; intros c; [done |].
  cbn [app exec_script]. destruct (exec st c); [done | apply IH].
Qed.

Lemma add_functions_ok c c1 :
  exec_script add_functions c = inr c1
  <-> ready c /\ c1 = installed_functions c.
Proof.
  unfold add_functions. split.
  - intros H.
    step_plain H. step_plain H.
    step_in H drop_function_ok. destruct E as [Hd1 ->]; norm.
    step_in H drop_function_ok. destruct E as [Hd2 ->]; norm.
    step_plain H. step_plain H.
    step_in H create_trigger_ok. destruct E as (Ht1 & _ & _ & ->); norm.
    step_in H create_trigger_ok. destruct E as (Ht2 & _ & _ & ->); norm.
    cbn [exec_script] in H. injection H as <-. norm.
    split; [by repeat split | reflexivity].
  - intros [(Ht1 & Ht2 & Hd1 & Hd2) ->].
    rewrite exec_script_cons; cbn [exec]; norm.
    rewrite exec_script_cons; cbn [exec]; norm.
    erewrite exec_ok_rewrite
      by (apply drop_function_ok; split; [exact Hd1 | reflexivity]).
    norm.
    erewrite exec_ok_rewrite
      by (apply drop_function_ok; split; [exact Hd2 | reflexivity]).
    norm.
    rewrite exec_script_cons; cbn [exec]; norm.
    rewrite exec_script_cons; cbn [exec]; norm.
    erewrite exec_ok_rewrite
      by (apply create_trigger_ok; norm;
          repeat split; [done | by simplify_map_eq | by simplify_map_eq]).
    norm.
    erewrite exec_ok_rewrite
      by (apply create_trigger_ok; norm;
          repeat split; [done | by simplify_map_eq | by simplify_map_eq]).
    norm. reflexivity.
Qed.

Lemma enable_rls_policies_ok c c1 :
  exec_script enable_rls_policies c = inr c1
  <-> "profiles" ∈ tables c /\ c1 = installed_policies c.
Proof.
  unfold enable_rls_policies, profiles_policies. cbn [app map]. split.
  - intros H. do 4 step_plain H.
    step_in H enable_rls_ok. destruct E as (Ht & ->); norm.
    step_in H create_policy_ok. destruct E as (_ & _ & ->); norm.
    step_in H create_policy_ok. destruct E as (_ & _ & ->); norm.
    step_in H create_policy_ok. destruct E as (_ & _ & ->); norm.
    step_in H create_policy_ok. destruct E as (_ & _ & ->); norm.
    cbn [exec_script] in H. injection H as <-. norm.
    split; [done |].
    unfold installed_policies, installed, profiles_policies, policy_key.
    cbn [foldl pol_table pol_name policies rls_enabled]. reflexivity.
  - intros [Ht ->].
    do 4 (rewrite exec_script_cons; cbn [exec]; norm).
    erewrite exec_ok_rewrite by (apply enable_rls_ok; norm; by split).
    norm.
    do 4 (erewrite exec_ok_rewrite
            by (apply create_policy_ok; unfold policy_key;
                cbn [pol_table pol_name]; norm;
                repeat split; [done | by simplify_map_eq]);
          norm).
    cbn [exec_script].
    unfold installed_policies, installed, profiles_policies, policy_key.
    cbn [foldl pol_table pol_name policies rls_enabled]. reflexivity.
Qed.

(** X19. The two scripts may be run in either order: script 3 then script 2
    succeeds exactly when script 2 then script 3 does, and leaves the
    same schema. *)
Theorem scripts_commute c c1 :
  exec_script (enable_rls_policies ++ add_functions) c = inr c1
  <-> exec_script (add_functions ++ enable_rls_policies) c = inr c1.
Proof.
  rewrite !exec_script_app. split.
  - destruct (exec_script enable_rls_policies c) as [e|c2] eqn:Hp; [done |].
    apply enable_rls_policies_ok in Hp as [Ht ->].
    intros Hf. apply add_functions_ok in Hf as [Hr ->].
    rewrite (proj2 (add_functions_ok c (installed_functions c)))
      by (split; [exact Hr | done]).
    by apply enable_rls_policies_ok.
  - destruct (exec_script add_functions c) as [e|c2] eqn:Hf; [done |].
    apply add_functions_ok in Hf as [Hr ->].
    intros Hp. apply enable_rls_policies_ok in Hp as [Ht ->].
    rewrite (proj2 (enable_rls_policies_ok c (installed_policies c)))
      by (split; [exact Ht | done]).
    by apply add_functions_ok.
Qed.

(** X20. Each script is idempotent on its own, and neither undoes the other:
    after a successful setup, running script 2 alone, or script 3 alone,
    succeeds and changes nothing. *)
Theorem each_script_fixes_setup c c1 :
  consistent c -> exec_script setup c = inr c1 ->
  exec_script add_functions c1 = inr c1
  /\ exec_script enable_rls_policies c1 = inr c1.
Proof.
  intros Hc Hrun. pose proof (setup_fixpoint c c1 Hc Hrun) as Hfix.
  unfold setup in Hfix. rewrite exec_script_app in Hfix.
  destruct (exec_script add_functions c1) as [e|c2] eqn:Hf; [done |].
  apply add_functions_ok in Hf as [Hr ->].
  apply enable_rls_policies_ok in Hfix as [Ht Heq].
  assert (Hfn : installed_functions c1 = c1).
  { destruct c1. unfold installed_policies, installed_functions in *.
    cbn in *. injection Heq as Hr1 Hf1 Ht1 Hp1. by rewrite <- Hf1, <- Ht1. }
  split; [by rewrite Hfn |].
  rewrite Hfn in Heq. apply enable_rls_policies_ok. by split.
Qed.

Lemma each_script_fixes_setup_witness :
  exec_script add_functions (installed tables_only)
  = inr (installed tables_only)
  /\ exec_script enable_rls_policies (installed tables_only)
     = inr (installed tables_only).
Proof.
  apply (each_script_fixes_setup tables_only).
  - unfold consistent. apply map_Forall_empty.
  - exact SetupFacts.setup_tables_only.
Defined.

End ScriptOrderFacts.

(** ** What the profile card and the edit form show *)

Module ViewFacts.
Import JsString ProfileUtils Store Access Sidebar ProfileCard
       JsStringFacts TriggerFacts AccessFacts.

Lemma card_of_name (o : option jsstring) (p : Profile) :
  full_name p = Some (default [] o) ->
  (default [] o = [] ->
   shown_name p = js "No name set" /\ status p = js "Incomplete")
  /\ (forall s, o = Some s -> s <> [] ->
      shown_name p = s /\ status p = js "Complete").
Proof.
  intros Hf. unfold shown_name, status. rewrite Hf.
  destruct o as [[|c s]|]; cbn [default truthy_opt truthy]; split;
    intros; by simplify_eq.
Qed.

(** X21. The card of a profile that was just provisioned: with no full_name
    in the identity's metadata (or an empty one) the stored name is the
    empty string, which the card shows as "No name set" and
    "Incomplete"; with a non-empty full_name the card shows it and
    "Complete". *)
Theorem provisioned_card new now db db' :
  insert_auth_users new now db = Ok db' ->
  exists p,
    p ∈ profiles db' /\ id p = Auth.id new
    /\ (default [] (arrow_text (Auth.raw_user_meta_data new)
                               (js "full_name")) = [] ->
        shown_name p = js "No name set" /\ status p = js "Incomplete")
    /\ (forall s, arrow_text (Auth.raw_user_meta_data new) (js "full_name")
                  = Some s -> s <> [] ->
        shown_name p = s /\ status p = js "Complete").
Proof.
  intros Hok. apply insert_auth_users_ok in Hok as (_ & _ & ->).
  exists (provisioned_row new now). cbn [profiles].
  split; [apply elem_of_app; right; by left |]. split; [done |].
  apply card_of_name. unfold provisioned_row. cbn [full_name].
  by rewrite <- arrow_text_meta.
Qed.

Lemma provisioned_card_witness :
  exists p,
    p ∈ profiles ann_db /\ id p = "U1"
    /\ (default [] (arrow_text (Auth.raw_user_meta_data ann)
                               (js "full_name")) = [] ->
        shown_name p = js "No name set" /\ status p = js "Incomplete")
    /\ (forall s, arrow_text (Auth.raw_user_meta_data ann) (js "full_name")
                  = Some s -> s <> [] ->
        shown_name p = s /\ status p = js "Complete").
Proof.
  apply (provisioned_card ann 100 empty_db ann_db).
  vm_compute. reflexivity.
Defined.

Example card_without_metadata :
  map status (profiles (create_identity bob 7 empty_db)) = [js "Incomplete"]
  /\ map shown_name (profiles (create_identity bob 7 empty_db))
     = [js "No name set"].
Proof. split; vm_compute; reflexivity. Qed.

End ViewFacts.
